(** * The rule evaluation engine of the rule-based profiler

    A shallow embedding of
    [great_expectations/rule_based_profiler/rule/rule.py]: the [Rule]
    class, its [generate] method and its [parameters] accessor.

    Python objects that are mutated in place live in an explicit heap: the
    dictionary behind [self._parameters] and every [ParameterContainer] are
    heap cells, and names such as [parameter_container] hold references.
    [copy.deepcopy] allocates fresh cells.  Exceptions are the [Raise]
    outcome of a state-and-error monad, and every builder invocation is
    recorded in a trace, so that orderings can be stated. *)

From stdpp Require Import gmap strings list fin_maps.

Open Scope string_scope.
Open Scope list_scope.

(** ** Python values *)

(** Modelled from the spec: [Domain] is declared in [domain_builder], which
    is not part of the sources at hand.  Section 3 of the specification
    gives it a type tag, identifying keyword arguments and a derived [id];
    [rule.py] only ever reads [domain.id]. *)
Module Domain.

Record t : Type := mk {
  domain_type : string;
  domain_kwargs : list (string * string);
  id : string
}.

End Domain.

(** The exceptions that can leave [generate]: the two that the interpreter
    raises when an attribute of [None] is read or [None] is iterated, and the
    three classes of the specification's error taxonomy (section 7), which
    builders raise. *)
Inductive exception : Type :=
  | AttributeError
  | TypeError
  | DomainDiscoveryError
  | ParameterComputationError
  | ExpectationConfigurationBuildError.

Inductive result (A : Type) : Type :=
  | Return (a : A)
  | Raise (e : exception).
Arguments Return {A} a.
Arguments Raise {A} e.

Abbreviation loc := positive (only parsing).

Section rule.

(** The values stored under parameter names and in keyword arguments are
    opaque to the orchestrator. *)
Context {Any : Type}.

(** Modelled from the spec: [ParameterContainer] is declared in
    [parameter_builder], which is not part of the sources at hand.  It is a
    store of named parameter values for one domain, built by
    [ParameterContainer(parameter_nodes=None)]. *)
Record ParameterContainer : Type := mkParameterContainer {
  parameter_nodes : option (gmap string Any)
}.

(** Modelled from the spec: an [ExpectationConfiguration] (declared in
    [great_expectations.core]) is an assertion type together with a mapping
    of keyword arguments (section 6). *)
Record ExpectationConfiguration : Type := mkExpectationConfiguration {
  expectation_type : string;
  kwargs : gmap string Any
}.

(** Modelled from the spec: the owning profiler, of which [rule.py] reads
    the [variables] attribute only. *)
Record RuleBasedProfiler : Type := mkRuleBasedProfiler {
  profiler_variables : option ParameterContainer
}.

(** ** The three capabilities

    Modelled from the spec: the builder classes are declared outside the
    sources at hand; sections 4.1 to 4.3 give their contracts.  A builder is
    a function of the arguments that [generate] passes to it.  The
    [parameters] argument is the value of the deep copy handed over. *)

(** [get_domains(variables)] returns the ordered domains or raises. *)
Record DomainBuilder : Type := mkDomainBuilder {
  get_domains : option ParameterContainer -> result (list Domain.t)
}.

(** [build_parameters(parameter_container, domain, variables, parameters)]
    writes into the container it is handed: from the container's content at
    the call it gives the content at the end of the call, and the exception
    raised, if any (a builder may raise after it has written). *)
Record ParameterBuilder : Type := mkParameterBuilder {
  build_parameters :
    ParameterContainer -> Domain.t -> option ParameterContainer ->
    gmap string ParameterContainer -> ParameterContainer * option exception
}.

(** [build_expectation_configuration(domain, variables, parameters)] returns
    one configuration or raises. *)
Record ExpectationConfigurationBuilder : Type :=
  mkExpectationConfigurationBuilder {
  build_expectation_configuration :
    Domain.t -> option ParameterContainer ->
    gmap string ParameterContainer -> result ExpectationConfiguration
}.

(** ** The heap *)

(** Dictionaries from domain ids to container references, and containers.
    [self._parameters] is typed [Dict[str, ParameterContainer]]. *)
Record heap : Type := mkHeap {
  dicts : gmap loc (gmap string loc);
  containers : gmap loc ParameterContainer
}.

#[global] Instance ParameterContainer_inhabited : Inhabited ParameterContainer :=
  populate (mkParameterContainer None).

(** The value of a dictionary: what [==] compares. *)
Definition view (h : heap) (d : loc) : gmap string ParameterContainer :=
  (λ l, containers h !!! l) <$> (dicts h !!! d).

(** ** The Rule object

    The attributes set by [__init__] are never assigned again; the
    dictionary that [_parameters] refers to is mutated in place. *)
Record Rule : Type := mkRule {
  _rule_based_profiler : RuleBasedProfiler;
  _name : string;
  _domain_builder : option DomainBuilder;
  _parameter_builders : option (list ParameterBuilder);
  _expectation_configuration_builders :
    option (list ExpectationConfigurationBuilder);
  _parameters : loc
}.

(** The Rule's dictionary is allocated, and every reference it holds is
    live. *)
Definition heap_wf (h : heap) (self : Rule) : Prop :=
  match dicts h !! _parameters self with
  | Some d => map_Forall (λ _ l, l ∈ dom (containers h)) d
  | None => False
  end.

#[global] Instance heap_wf_dec h self : Decision (heap_wf h self).
Proof. unfold heap_wf. destruct (dicts h !! _parameters self); apply _. Defined.

(** [Rule.__init__]: stores its arguments; [self._parameters = {}]
    allocates the dictionary. *)
Definition Rule_init (h : heap) (rule_based_profiler : RuleBasedProfiler)
    (name : string) (domain_builder : option DomainBuilder)
    (parameter_builders : option (list ParameterBuilder))
    (expectation_configuration_builders :
       option (list ExpectationConfigurationBuilder)) : heap * Rule :=
  let d := fresh (dom (dicts h)) in
  (mkHeap (<[d := ∅]> (dicts h)) (containers h),
   mkRule rule_based_profiler name domain_builder parameter_builders
     expectation_configuration_builders d).

(** ** [copy.deepcopy] *)

(** Copy of one dictionary value.  [memo] maps the objects copied so far to
    their copies, so that an object reached twice is copied once. *)
Definition deepcopy_value
    (cs : gmap loc ParameterContainer) (memo : gmap loc loc) (x : loc)
    : gmap loc ParameterContainer * gmap loc loc * loc :=
  match memo !! x with
  | Some y => (cs, memo, y)
  | None =>
      let y := fresh (dom cs) in
      (<[y := cs !!! x]> cs, <[x := y]> memo, y)
  end.

(** One step of [for key, value in x.items(): y[key] = deepcopy(value)]. *)
Definition deepcopy_item (k : string) (x : loc)
    (acc : gmap loc ParameterContainer * gmap loc loc * gmap string loc)
    : gmap loc ParameterContainer * gmap loc loc * gmap string loc :=
  let '(cs, memo, y) := acc in
  let '(cs', memo', v') := deepcopy_value cs memo x in
  (cs', memo', <[k := v']> y).

(** [copy.deepcopy(x)] for a dictionary [x]: a new dictionary whose values
    are copies of the values of [x].  The order in which the items are
    visited only decides which fresh addresses the copies get. *)
Definition deepcopy (h : heap) (x : loc) : heap * loc :=
  let '(cs, _, y) :=
    map_fold deepcopy_item (containers h, ∅, ∅) (dicts h !!! x) in
  let r := fresh (dom (dicts h)) in
  (mkHeap (<[r := y]> (dicts h)) cs, r).

(** ** Traces *)

(** One entry per builder invocation, with the arguments passed and the
    outcome, and one per registration of a container (line 65).  [i] counts
    the iterations of the loop over domains, [p] and [j] the position of the
    builder in its list. *)
Inductive event : Type :=
  | EvGetDomains (variables : option ParameterContainer)
      (out : result (list Domain.t))
  | EvRegister (i : nat) (domain : Domain.t)
  | EvBuildParameters (i p : nat) (domain : Domain.t)
      (variables : option ParameterContainer)
      (parameters : gmap string ParameterContainer)
      (out : ParameterContainer * option exception)
  | EvBuildExpectationConfiguration (i j : nat) (domain : Domain.t)
      (variables : option ParameterContainer)
      (parameters : gmap string ParameterContainer)
      (out : result ExpectationConfiguration).

(** ** The state-and-error monad *)

Record state : Type := mkState {
  heap_of : heap;
  trace_of : list event
}.

Definition M (A : Type) : Type := state -> state * result A.

Definition ret {A} (a : A) : M A := λ σ, (σ, Return a).

Definition bind {A B} (c : M A) (k : A -> M B) : M B :=
  λ σ, match c σ with
       | (σ', Return a) => k a σ'
       | (σ', Raise e) => (σ', Raise e)
       end.

Definition raise {A} (e : exception) : M A := λ σ, (σ, Raise e).

Definition log (ev : event) : M unit :=
  λ σ, (mkState (heap_of σ) (trace_of σ ++ [ev]), Return tt).

Notation "'let*' x := c 'in' k" := (bind c (λ x, k))
  (at level 10, x name, c at level 200, k at level 200).
Notation "'do' c 'in' k" := (bind c (λ _, k))
  (at level 10, c at level 200, k at level 200).

(** ** [Rule.parameters] (lines 114 to 117) *)

(** [return copy.deepcopy(self._parameters)]: the heap after the copy and a
    reference to the copy. *)
Definition run_parameters (self : Rule) (h : heap) : heap * loc :=
  deepcopy h (_parameters self).

(** The same inside [generate], where it is written [self.parameters]. *)
Definition parameters (self : Rule) : M loc :=
  λ σ, let '(h, r) := run_parameters self (heap_of σ) in
       (mkState h (trace_of σ), Return r).

(** ** [Rule.generate] (lines 43 to 87) *)

(** [ParameterContainer(parameter_nodes=None)] *)
Definition new_ParameterContainer : M loc :=
  λ σ, let h := heap_of σ in
       let l := fresh (dom (containers h)) in
       (mkState (mkHeap (dicts h) (<[l := mkParameterContainer None]> (containers h)))
                (trace_of σ),
        Return l).

(** [d[k] = v] *)
Definition setitem (d : loc) (k : string) (v : loc) : M unit :=
  λ σ, let h := heap_of σ in
       (mkState (mkHeap (<[d := <[k := v]> (dicts h !!! d)]> (dicts h))
                        (containers h))
                (trace_of σ),
        Return tt).

(** [self._domain_builder.get_domains]: reading the attribute of [None]
    raises. *)
Definition getattr_get_domains (o : option DomainBuilder) : M DomainBuilder :=
  match o with
  | Some b => ret b
  | None => raise AttributeError
  end.

(** [for x in xs]: iterating [None] raises. *)
Definition iter {A} (o : option (list A)) : M (list A) :=
  match o with
  | Some l => ret l
  | None => raise TypeError
  end.

Definition call_get_domains (b : DomainBuilder)
    (variables : option ParameterContainer) : M (list Domain.t) :=
  let out := get_domains b variables in
  do log (EvGetDomains variables out) in
  match out with
  | Return ds => ret ds
  | Raise e => raise e
  end.

(** The call of lines 68 to 73, its arguments already evaluated.  The
    builder works on the cell [parameter_container]. *)
Definition call_build_parameters (i p : nat) (b : ParameterBuilder)
    (parameter_container : loc) (domain : Domain.t)
    (variables : option ParameterContainer) (params : loc) : M unit :=
  λ σ, let h := heap_of σ in
       let snapshot := view h params in
       let out := build_parameters b (containers h !!! parameter_container)
                    domain variables snapshot in
       (mkState (mkHeap (dicts h)
                        (<[parameter_container := out.1]> (containers h)))
                (trace_of σ ++
                   [EvBuildParameters i p domain variables snapshot out]),
        match out.2 with
        | None => Return tt
        | Some e => Raise e
        end).

(** The call of lines 80 to 84, its arguments already evaluated. *)
Definition call_build_expectation_configuration (i j : nat)
    (b : ExpectationConfigurationBuilder) (domain : Domain.t)
    (variables : option ParameterContainer) (params : loc)
    : M ExpectationConfiguration :=
  λ σ, let snapshot := view (heap_of σ) params in
       let out := build_expectation_configuration b domain variables snapshot in
       (mkState (heap_of σ)
                (trace_of σ ++
                   [EvBuildExpectationConfiguration i j domain variables
                      snapshot out]),
        out).

(** Lines 67 to 73. *)
Fixpoint for_parameter_builders (self : Rule) (i p : nat)
    (bs : list ParameterBuilder) (parameter_container : loc)
    (domain : Domain.t) (variables : option ParameterContainer) : M unit :=
  match bs with
  | [] => ret tt
  | parameter_builder :: bs' =>
      let* params := parameters self in
      do call_build_parameters i p parameter_builder parameter_container
           domain variables params in
      for_parameter_builders self i (S p) bs' parameter_container
        domain variables
  end.

(** Lines 76 to 85; [expectation_configurations] is the list appended to. *)
Fixpoint for_expectation_configuration_builders (self : Rule) (i j : nat)
    (bs : list ExpectationConfigurationBuilder) (domain : Domain.t)
    (variables : option ParameterContainer)
    (expectation_configurations : list ExpectationConfiguration)
    : M (list ExpectationConfiguration) :=
  match bs with
  | [] => ret expectation_configurations
  | expectation_configuration_builder :: bs' =>
      let* params := parameters self in
      let* c := call_build_expectation_configuration i j
                  expectation_configuration_builder domain variables params in
      for_expectation_configuration_builders self i (S j) bs' domain
        variables (expectation_configurations ++ [c])
  end.

(** Lines 61 to 85. *)
Fixpoint for_domains (self : Rule) (i : nat) (domains : list Domain.t)
    (variables : option ParameterContainer)
    (expectation_configurations : list ExpectationConfiguration)
    : M (list ExpectationConfiguration) :=
  match domains with
  | [] => ret expectation_configurations
  | domain :: domains' =>
      let* parameter_container := new_ParameterContainer in
      do setitem (_parameters self) (Domain.id domain) parameter_container in
      do log (EvRegister i domain) in
      let* pbs := iter (_parameter_builders self) in
      do for_parameter_builders self i 0 pbs parameter_container domain
           variables in
      let* ecbs := iter (_expectation_configuration_builders self) in
      let* expectation_configurations' :=
        for_expectation_configuration_builders self i 0 ecbs domain
          variables expectation_configurations in
      for_domains self (S i) domains' variables expectation_configurations'
  end.

(** Lines 53 and 54. *)
Definition resolve_variables (self : Rule)
    (variables : option ParameterContainer) : option ParameterContainer :=
  match variables with
  | None => profiler_variables (_rule_based_profiler self)
  | Some _ => variables
  end.

Definition generate (self : Rule) (variables : option ParameterContainer)
    : M (list ExpectationConfiguration) :=
  let variables := resolve_variables self variables in
  let expectation_configurations := [] in
  let* domain_builder := getattr_get_domains (_domain_builder self) in
  let* domains := call_get_domains domain_builder variables in
  for_domains self 0 domains variables expectation_configurations.

(** One call of [generate] on a heap, with an empty trace. *)
Definition run_generate (self : Rule) (h : heap)
    (variables : option ParameterContainer)
    : heap * list event * result (list ExpectationConfiguration) :=
  let '(σ, r) := generate self variables (mkState h []) in
  (heap_of σ, trace_of σ, r).

(** ** The run on values

    The reading of [generate] in which the heap is forgotten: the Rule's
    dictionary is a finite map from domain ids to container values, a
    builder's write replaces the entry of the current domain, and every
    snapshot is the map itself.  [generate] is compared with this reading
    below ([run_generate_refines]).  Each function gives the final map, the
    events in the order of the calls, and the outcome. *)

Fixpoint value_parameter_builders (i p : nat) (bs : list ParameterBuilder)
    (domain : Domain.t) (variables : option ParameterContainer)
    (m : gmap string ParameterContainer)
    : gmap string ParameterContainer * list event * result unit :=
  match bs with
  | [] => (m, [], Return tt)
  | b :: bs' =>
      let out := build_parameters b (m !!! Domain.id domain) domain variables m in
      let m1 := <[Domain.id domain := out.1]> m in
      let ev := EvBuildParameters i p domain variables m out in
      match out.2 with
      | Some e => (m1, [ev], Raise e)
      | None =>
          let '(m2, evs, r) :=
            value_parameter_builders i (S p) bs' domain variables m1 in
          (m2, ev :: evs, r)
      end
  end.

(** The configurations of one domain. *)
Fixpoint value_expectation_configuration_builders (i j : nat)
    (bs : list ExpectationConfigurationBuilder) (domain : Domain.t)
    (variables : option ParameterContainer)
    (m : gmap string ParameterContainer)
    : list event * result (list ExpectationConfiguration) :=
  match bs with
  | [] => ([], Return [])
  | b :: bs' =>
      let out := build_expectation_configuration b domain variables m in
      let ev := EvBuildExpectationConfiguration i j domain variables m out in
      match out with
      | Raise e => ([ev], Raise e)
      | Return c =>
          let '(evs, r) :=
            value_expectation_configuration_builders i (S j) bs' domain
              variables m in
          (ev :: evs,
           match r with
           | Return cs => Return (c :: cs)
           | Raise e => Raise e
           end)
      end
  end.

(** One iteration of the loop over domains. *)
Definition value_domain (pbs : option (list ParameterBuilder))
    (ecbs : option (list ExpectationConfigurationBuilder)) (i : nat)
    (domain : Domain.t) (variables : option ParameterContainer)
    (m : gmap string ParameterContainer)
    : gmap string ParameterContainer * list event *
      result (list ExpectationConfiguration) :=
  let m1 := <[Domain.id domain := mkParameterContainer None]> m in
  match pbs with
  | None => (m1, [EvRegister i domain], Raise TypeError)
  | Some pbs =>
      let '(m2, evs1, r1) :=
        value_parameter_builders i 0 pbs domain variables m1 in
      match r1 with
      | Raise e => (m2, EvRegister i domain :: evs1, Raise e)
      | Return _ =>
          match ecbs with
          | None => (m2, EvRegister i domain :: evs1, Raise TypeError)
          | Some ecbs =>
              let '(evs2, r2) :=
                value_expectation_configuration_builders i 0 ecbs domain
                  variables m2 in
              (m2, EvRegister i domain :: evs1 ++ evs2, r2)
          end
      end
  end.

Fixpoint value_domains (pbs : option (list ParameterBuilder))
    (ecbs : option (list ExpectationConfigurationBuilder)) (i : nat)
    (domains : list Domain.t) (variables : option ParameterContainer)
    (m : gmap string ParameterContainer)
    : gmap string ParameterContainer * list event *
      result (list ExpectationConfiguration) :=
  match domains with
  | [] => (m, [], Return [])
  | domain :: domains' =>
      let '(m1, evs1, r1) := value_domain pbs ecbs i domain variables m in
      match r1 with
      | Raise e => (m1, evs1, Raise e)
      | Return block =>
          let '(m2, evs2, r2) :=
            value_domains pbs ecbs (S i) domains' variables m1 in
          (m2, evs1 ++ evs2,
           match r2 with
           | Return cs => Return (block ++ cs)
           | Raise e => Raise e
           end)
      end
  end.

Definition value_generate (self : Rule)
    (variables : option ParameterContainer)
    (m : gmap string ParameterContainer)
    : gmap string ParameterContainer * list event *
      result (list ExpectationConfiguration) :=
  let v := resolve_variables self variables in
  match _domain_builder self with
  | None => (m, [], Raise AttributeError)
  | Some b =>
      let out := get_domains b v in
      match out with
      | Raise e => (m, [EvGetDomains v out], Raise e)
      | Return ds =>
          let '(m', evs, r) :=
            value_domains (_parameter_builders self)
              (_expectation_configuration_builders self) 0 ds v m in
          (m', EvGetDomains v out :: evs, r)
      end
  end.

(** ** What a trace says *)

(** The invocation behind an event, without its data. *)
Inductive call : Type :=
  | CGetDomains
  | CRegister (i : nat) (domain : Domain.t)
  | CBuildParameters (i p : nat) (domain : Domain.t)
  | CBuildExpectationConfiguration (i j : nat) (domain : Domain.t).

Definition call_of (ev : event) : call :=
  match ev with
  | EvGetDomains _ _ => CGetDomains
  | EvRegister i d => CRegister i d
  | EvBuildParameters i p d _ _ _ => CBuildParameters i p d
  | EvBuildExpectationConfiguration i j d _ _ _ =>
      CBuildExpectationConfiguration i j d
  end.

(** The exception an invocation ended with, if it raised. *)
Definition raised (ev : event) : option exception :=
  match ev with
  | EvGetDomains _ (Raise e) => Some e
  | EvBuildParameters _ _ _ _ _ (_, Some e) => Some e
  | EvBuildExpectationConfiguration _ _ _ _ _ (Raise e) => Some e
  | _ => None
  end.

(** The [variables] argument of an invocation. *)
Definition variables_of (ev : event) : option (option ParameterContainer) :=
  match ev with
  | EvGetDomains v _ => Some v
  | EvRegister _ _ => None
  | EvBuildParameters _ _ _ v _ _ => Some v
  | EvBuildExpectationConfiguration _ _ _ v _ _ => Some v
  end.

(** The [parameters] argument of an invocation. *)
Definition parameters_of (ev : event)
    : option (gmap string ParameterContainer) :=
  match ev with
  | EvBuildParameters _ _ _ _ s _ => Some s
  | EvBuildExpectationConfiguration _ _ _ _ s _ => Some s
  | _ => None
  end.

(** The iteration of the loop over domains an invocation belongs to, and
    the domain of that iteration. *)
Definition iteration_of (c : call) : option (nat * Domain.t) :=
  match c with
  | CGetDomains => None
  | CRegister i d => Some (i, d)
  | CBuildParameters i _ d => Some (i, d)
  | CBuildExpectationConfiguration i _ d => Some (i, d)
  end.

(** Is [c] the invocation of a parameter builder in iteration [i]? *)
Definition is_build_parameters (i : nat) (c : call) : bool :=
  match c with
  | CBuildParameters i' _ _ => bool_decide (i' = i)
  | _ => false
  end.

(** ** A caller holding the structure that [parameters] returned

    The caller can reach the returned dictionary, the containers in it, and
    whatever it allocates itself.  A mutation writes to an object the caller
    holds a reference to, and stores only references the caller holds. *)
Record handles : Type := mkHandles {
  held_dicts : gset loc;
  held_containers : gset loc
}.

Inductive mutation : Type :=
  | SetItems (y : loc) (items : gmap string loc)
  | SetContainer (l : loc) (c : ParameterContainer)
  | NewContainer (c : ParameterContainer)
  | NewDict (items : gmap string loc).

(** What the caller holds once [parameters] has returned [r]. *)
Definition handles_of (h : heap) (r : loc) : handles :=
  mkHandles {[r]} (map_img (dicts h !!! r)).

(** One mutation; [None] when the caller holds no reference that would let
    it do so. *)
Definition mutate (s : handles * heap) (mu : mutation)
    : option (handles * heap) :=
  let '(K, h) := s in
  match mu with
  | SetItems y items =>
      if decide (y ∈ held_dicts K ∧
                 map_img (SA := gset loc) items ⊆ held_containers K)
      then Some (K, mkHeap (<[y := items]> (dicts h)) (containers h))
      else None
  | SetContainer l c =>
      if decide (l ∈ held_containers K)
      then Some (K, mkHeap (dicts h) (<[l := c]> (containers h)))
      else None
  | NewContainer c =>
      let l := fresh (dom (containers h)) in
      Some (mkHandles (held_dicts K) ({[l]} ∪ held_containers K),
            mkHeap (dicts h) (<[l := c]> (containers h)))
  | NewDict items =>
      if decide (map_img (SA := gset loc) items ⊆ held_containers K)
      then let y := fresh (dom (dicts h)) in
           Some (mkHandles ({[y]} ∪ held_dicts K) (held_containers K),
                 mkHeap (<[y := items]> (dicts h)) (containers h))
      else None
  end.

Fixpoint mutations (s : handles * heap) (mus : list mutation)
    : option (handles * heap) :=
  match mus with
  | [] => Some s
  | mu :: mus' =>
      match mutate s mu with
      | Some s' => mutations s' mus'
      | None => None
      end
  end.

(** ** Invariants *)

(** What holds of the accumulator of [deepcopy] once the items [items] have
    been visited, starting from the containers [cs0]. *)
Definition copied (cs0 : gmap loc ParameterContainer)
    (acc : gmap loc ParameterContainer * gmap loc loc * gmap string loc)
    (items : gmap string loc) : Prop :=
  let '(cs, memo, y) := acc in
  cs0 ⊆ cs ∧
  (∀ x x', memo !! x = Some x' →
     (x' ∉ dom cs0) ∧ cs !! x' = Some (cs0 !!! x)) ∧
  (∀ k, match items !! k with
        | None => y !! k = None
        | Some x => ∃ x', y !! k = Some x' ∧ memo !! x = Some x'
        end).

(** The Rule's dictionary has the items [dict], and its references are
    live. *)
Definition owns (h : heap) (self : Rule) (dict : gmap string loc) : Prop :=
  dicts h !! _parameters self = Some dict ∧
  ∀ k x, dict !! k = Some x → x ∈ dom (containers h).

(** The outcome of a loop that appends the configurations it builds to
    [expectation_configurations]. *)
Definition appended {A} (expectation_configurations : list A)
    (r : result (list A)) : result (list A) :=
  match r with
  | Return cs => Return (expectation_configurations ++ cs)
  | Raise e => Raise e
  end.

(** What an event writes into the Rule's dictionary: a registration puts
    an empty container under the domain's id, and a parameter builder leaves
    the container of its domain with the content it had when the call
    ended. *)
Definition written (ev : event) : option (string * ParameterContainer) :=
  match ev with
  | EvRegister _ d => Some (Domain.id d, mkParameterContainer None)
  | EvBuildParameters _ _ d _ _ out => Some (Domain.id d, out.1)
  | _ => None
  end.

Definition replay_event (m : gmap string ParameterContainer) (ev : event)
    : gmap string ParameterContainer :=
  match written ev with
  | Some (k, c) => <[k := c]> m
  | None => m
  end.

(** The map [m] after the writes of a trace, in order. *)
Definition replay (tr : list event) (m : gmap string ParameterContainer)
    : gmap string ParameterContainer :=
  foldl replay_event m tr.

(** Every [parameters] argument in [evs] is the map [m] after the writes of
    the events before it. *)
Definition sees_current (m : gmap string ParameterContainer)
    (evs : list event) : Prop :=
  ∀ evs1 ev evs2 s,
    evs = evs1 ++ ev :: evs2 →
    parameters_of ev = Some s →
    s = replay evs1 m.

(** An event that raised is the last one, and its exception is the
    outcome. *)
Definition raise_ends {A} (evs : list event) (r : result A) : Prop :=
  ∀ evs1 ev evs2 e,
    evs = evs1 ++ ev :: evs2 →
    raised ev = Some e →
    evs2 = [] ∧ r = Raise e.

(** The Rule's dictionary [dict] and the containers it refers to are as in
    [h0], and out of reach of the holder of [K]. *)
Definition isolated (self : Rule) (h0 : heap) (dict : gmap string loc)
    (s : handles * heap) : Prop :=
  let '(K, h) := s in
  owns h self dict ∧
  (∀ k x, dict !! k = Some x → containers h !! x = containers h0 !! x) ∧
  (_parameters self ∉ held_dicts K) ∧
  (∀ k x, dict !! k = Some x → x ∉ held_containers K).

(** Every invocation that belongs to an iteration comes after the
    registration of that iteration. *)
Definition registers_first (evs : list event) : Prop :=
  ∀ evs1 ev evs2 i d,
    evs = evs1 ++ ev :: evs2 →
    iteration_of (call_of ev) = Some (i, d) →
    ev = EvRegister i d ∨ EvRegister i d ∈ evs1.

(** In a stretch of events run with the parameter builders [pbs]: before
    an invocation of an expectation configuration builder in iteration [i],
    the parameter builders invoked in iteration [i] are all of [pbs], once
    each and in the order of the list; after it, none is invoked in that
    iteration. *)
Definition parameters_before_configurations
    (pbs : option (list ParameterBuilder)) (evs : list event) : Prop :=
  ∀ evs1 evs2 i j d v s out,
    evs = evs1 ++ EvBuildExpectationConfiguration i j d v s out :: evs2 →
    ∃ bs,
      pbs = Some bs ∧
      call_of <$> filter (λ ev, is_build_parameters i (call_of ev)) evs1 =
        (λ p, CBuildParameters i p d) <$> seq 0 (length bs) ∧
      Forall (λ ev, is_build_parameters i (call_of ev) = false) evs2.

(** ** The accessors (lines 89 to 112) *)

Definition rule_based_profiler (self : Rule) : RuleBasedProfiler :=
  _rule_based_profiler self.

Definition name (self : Rule) : string := _name self.

Definition domain_builder (self : Rule) : option DomainBuilder :=
  _domain_builder self.

(** [{key(x): x for x in xs}]: a later element replaces an earlier one with
    the same key.  The order of the keys of the dictionary is not
    modelled. *)
Definition dict_comprehension {A} (key : A → string) (xs : list A)
    : gmap string A :=
  foldl (λ acc x, <[key x := x]> acc) ∅ xs.

(** Lines 101 to 107.  [builder_name] is the [name] attribute of a
    parameter builder, whose class is declared elsewhere. *)
Definition parameter_builders (builder_name : ParameterBuilder → string)
    (self : Rule) : option (gmap string ParameterBuilder) :=
  match _parameter_builders self with
  | None => None
  | Some bs => Some (dict_comprehension builder_name bs)
  end.

(** Lines 109 to 112: no test for [None] here, so iterating [None] raises.
    [builder_expectation_type] is the [expectation_type] attribute of an
    expectation configuration builder. *)
Definition expectation_configuration_builders
    (builder_expectation_type : ExpectationConfigurationBuilder → string)
    (self : Rule) : result (gmap string ExpectationConfigurationBuilder) :=
  match _expectation_configuration_builders self with
  | None => Raise TypeError
  | Some bs => Return (dict_comprehension builder_expectation_type bs)
  end.

(** ** The schedule of a call *)

(** The invocations of one iteration that runs to its end, with [np]
    parameter builders and [nc] expectation configuration builders. *)
Definition iteration_schedule (np nc i : nat) (domain : Domain.t)
    : list call :=
  CRegister i domain ::
  ((λ p, CBuildParameters i p domain) <$> seq 0 np) ++
  ((λ j, CBuildExpectationConfiguration i j domain) <$> seq 0 nc).

Fixpoint domains_schedule (np nc i : nat) (domains : list Domain.t)
    : list call :=
  match domains with
  | [] => []
  | domain :: domains' =>
      iteration_schedule np nc i domain ++
      domains_schedule np nc (S i) domains'
  end.

(** The invocations of a call of [generate] that runs to its end. *)
Definition schedule (np nc : nat) (domains : list Domain.t) : list call :=
  CGetDomains :: domains_schedule np nc 0 domains.

(** The key of the Rule's dictionary that an invocation writes to. *)
Definition key_of (c : call) : option string :=
  match c with
  | CRegister _ d => Some (Domain.id d)
  | CBuildParameters _ _ d => Some (Domain.id d)
  | _ => None
  end.

(** The heap [h] has the containers of [h0] as they are in [h0], and the
    dictionaries of [h0] other than the Rule's own as they are in [h0]. *)
Definition frames (h0 h : heap) (self : Rule) : Prop :=
  containers h0 ⊆ containers h ∧
  ∀ q d, q ≠ _parameters self →
         dicts h0 !! q = Some d → dicts h !! q = Some d.

(** In a stretch of events: the expectation configuration builders of one
    iteration are all passed the same [parameters], in which the container
    of the domain is as the last of the [np] parameter builders left it. *)
Definition configurations_see_final (np : nat) (evs : list event) : Prop :=
  ∀ i j d v s out,
    EvBuildExpectationConfiguration i j d v s out ∈ evs →
    (∀ j' d' v' s' out',
       EvBuildExpectationConfiguration i j' d' v' s' out' ∈ evs → s' = s) ∧
    (∀ p d' v' s' out',
       EvBuildParameters i p d' v' s' out' ∈ evs →
       S p = np →
       s !! Domain.id d = Some out'.1) ∧
    (np = 0 → s !! Domain.id d = Some (mkParameterContainer None)).

(** ** What an event records *)

(** The domains that the domain builder returns in a call of [generate],
    none when there is no domain builder or when it raises. *)
Definition discovered (self : Rule) (variables : option ParameterContainer)
    : list Domain.t :=
  match _domain_builder self with
  | Some b =>
      match get_domains b (resolve_variables self variables) with
      | Return ds => ds
      | Raise _ => []
      end
  | None => []
  end.

(** The event of iteration [i] is about the [i]-th domain of [ds]; the
    event numbered [p] of a parameter builder is the invocation of the
    [p]-th builder of [pbs] on the container that [parameters] shows for the
    domain, and records what that builder does; the event numbered [j] of an
    expectation configuration builder is the invocation of the [j]-th
    builder of [ecbs], and records what that builder returns or raises.
    All are passed the variables [v]. *)
Definition invocation_of (pbs : list ParameterBuilder)
    (ecbs : list ExpectationConfigurationBuilder) (ds : list Domain.t)
    (v : option ParameterContainer) (ev : event) : Prop :=
  match ev with
  | EvGetDomains _ _ => False
  | EvRegister i d => ds !! i = Some d
  | EvBuildParameters i p d v' s out =>
      ds !! i = Some d ∧ v' = v ∧
      ∃ b, pbs !! p = Some b ∧
           out = build_parameters b (s !!! Domain.id d) d v s
  | EvBuildExpectationConfiguration i j d v' s out =>
      ds !! i = Some d ∧ v' = v ∧
      ∃ b, ecbs !! j = Some b ∧
           out = build_expectation_configuration b d v s
  end.

(** The same for an event of a call of [generate] on the Rule [self]: the
    builders are those of the Rule's lists, the domains those that the
    Rule's domain builder returns, and the event of the domain builder
    records what it returns or raises for the resolved variables. *)
Definition records_invocation (self : Rule)
    (variables : option ParameterContainer) (ev : event) : Prop :=
  match ev with
  | EvGetDomains v out =>
      ∃ b, _domain_builder self = Some b ∧
           v = resolve_variables self variables ∧
           out = get_domains b v
  | _ =>
      invocation_of (default [] (_parameter_builders self))
        (default [] (_expectation_configuration_builders self))
        (discovered self variables) (resolve_variables self variables) ev
  end.

End rule.

Arguments ParameterContainer : clear implicits.
Arguments ExpectationConfiguration : clear implicits.
Arguments RuleBasedProfiler : clear implicits.
Arguments DomainBuilder : clear implicits.
Arguments ParameterBuilder : clear implicits.
Arguments ExpectationConfigurationBuilder : clear implicits.
Arguments heap : clear implicits.
Arguments Rule : clear implicits.
Arguments event : clear implicits.
Arguments state : clear implicits.
Arguments mutation : clear implicits.

(** * Concrete rules

    The scenarios of the specification's section 8, and variations of
    them. *)

Inductive pyval : Type :=
  | PInt (z : Z)
  | PStr (s : string).

Definition colA : Domain.t := Domain.mk "column" [("column", "a")] "colA".
Definition colB : Domain.t := Domain.mk "column" [("column", "b")] "colB".

Definition two_columns : DomainBuilder pyval :=
  mkDomainBuilder (λ _, Return [colA; colB]).

Definition no_columns : DomainBuilder pyval :=
  mkDomainBuilder (λ _, Return []).

Definition unreachable_backend : DomainBuilder pyval :=
  mkDomainBuilder (λ _, Raise DomainDiscoveryError).

(** Writes [row_count = 100]. *)
Definition row_count_builder : ParameterBuilder pyval :=
  mkParameterBuilder (λ c _ _ _,
    (mkParameterContainer
       (Some (<["row_count" := PInt 100]> (default ∅ (parameter_nodes c)))),
     None)).

(** Writes [started = 1], then fails on [colB]. *)
Definition failing_on_colB : ParameterBuilder pyval :=
  mkParameterBuilder (λ c d _ _,
    (mkParameterContainer
       (Some (<["started" := PInt 1]> (default ∅ (parameter_nodes c)))),
     if decide (Domain.id d = "colB") then Some ParameterComputationError
     else None)).

Definition not_null_builder : ExpectationConfigurationBuilder pyval :=
  mkExpectationConfigurationBuilder (λ d _ _,
    Return (mkExpectationConfiguration "expect_column_values_to_not_be_null"
              {["column" := PStr (Domain.id d)]})).

(** Reads the parameter [p.missing] of its domain. *)
Definition missing_parameter_builder : ExpectationConfigurationBuilder pyval :=
  mkExpectationConfigurationBuilder (λ d _ ps,
    match parameter_nodes (ps !!! Domain.id d) with
    | Some nodes =>
        match nodes !! "p.missing" with
        | Some x =>
            Return
              (mkExpectationConfiguration "expect_column_max_to_be_between"
                 {["max_value" := x]})
        | None => Raise ExpectationConfigurationBuildError
        end
    | None => Raise ExpectationConfigurationBuildError
    end).

(** Reports how many domains have an entry in the [parameters] it is
    passed. *)
Definition entry_count_builder : ExpectationConfigurationBuilder pyval :=
  mkExpectationConfigurationBuilder (λ _ _ ps,
    Return (mkExpectationConfiguration "expect_entries"
              {["count" := PInt (Z.of_nat (size ps))]})).

Definition empty_heap : heap pyval := mkHeap ∅ ∅.

Definition profiler : RuleBasedProfiler pyval :=
  mkRuleBasedProfiler
    (Some (mkParameterContainer (Some {["mostly" := PInt 1]}))).

Definition new_rule (domain_builder : option (DomainBuilder pyval))
    (parameter_builders : option (list (ParameterBuilder pyval)))
    (expectation_configuration_builders :
       option (list (ExpectationConfigurationBuilder pyval)))
    : heap pyval * Rule pyval :=
  Rule_init empty_heap profiler "rule" domain_builder parameter_builders
    expectation_configuration_builders.

(** Two columns, one parameter builder, one configuration builder. *)
Definition scenario : heap pyval * Rule pyval :=
  new_rule (Some two_columns) (Some [row_count_builder])
    (Some [not_null_builder]).

(** The first parameter builder fails on the second column. *)
Definition scenario_failing : heap pyval * Rule pyval :=
  new_rule (Some two_columns) (Some [failing_on_colB; row_count_builder])
    (Some [not_null_builder]).

(** A configuration builder refers to a parameter that nobody wrote. *)
Definition scenario_missing : heap pyval * Rule pyval :=
  new_rule (Some two_columns) (Some [row_count_builder])
    (Some [not_null_builder; missing_parameter_builder]).

(** Discovery fails. *)
Definition scenario_unreachable : heap pyval * Rule pyval :=
  new_rule (Some unreachable_backend) (Some [row_count_builder])
    (Some [not_null_builder]).

(** The configuration builder looks at the whole [parameters] map. *)
Definition scenario_counting : heap pyval * Rule pyval :=
  new_rule (Some two_columns) (Some [row_count_builder])
    (Some [entry_count_builder]).

(** Constructor defaults. *)
Definition scenario_no_domain_builder : heap pyval * Rule pyval :=
  new_rule None None None.

Definition scenario_no_builders : heap pyval * Rule pyval :=
  new_rule (Some two_columns) None None.

Definition scenario_no_builders_no_columns : heap pyval * Rule pyval :=
  new_rule (Some no_columns) None None.

(** The first scenario once [generate] has run, a copy handed out by
    [parameters], and a caller that empties a container of the copy, clears
    the dictionary returned and allocates a container of its own. *)
Definition scenario_after : heap pyval :=
  (run_generate scenario.2 scenario.1 None).1.1.

Definition scenario_copy : heap pyval * loc :=
  run_parameters scenario.2 scenario_after.

Definition caller_mutations : list (mutation pyval) :=
  [SetContainer ((dicts scenario_copy.1 !!! scenario_copy.2) !!! "colA")
     (mkParameterContainer None);
   SetItems scenario_copy.2 ∅;
   NewContainer (mkParameterContainer (Some {["row_count" := PInt 0]}))].

(** Two parameter builders that write the same parameter, and a
    configuration builder that reads it. *)
Definition write_x (z : Z) : ParameterBuilder pyval :=
  mkParameterBuilder (λ c _ _ _,
    (mkParameterContainer
       (Some (<["x" := PInt z]> (default ∅ (parameter_nodes c)))),
     None)).

Definition read_x : ExpectationConfigurationBuilder pyval :=
  mkExpectationConfigurationBuilder (λ d _ ps,
    match parameter_nodes (ps !!! Domain.id d) with
    | Some nodes =>
        match nodes !! "x" with
        | Some x => Return (mkExpectationConfiguration "expect_x" {["x" := x]})
        | None => Raise ExpectationConfigurationBuildError
        end
    | None => Raise ExpectationConfigurationBuildError
    end).

Definition scenario_overwrite : heap pyval * Rule pyval :=
  new_rule (Some two_columns) (Some [write_x 1; write_x 2]) (Some [read_x]).

(** * Properties *)

Section rule_properties.

Context {Any : Type}.

Implicit Types (h : heap Any) (self : Rule Any) (d : Domain.t).
Implicit Types (m : gmap string (ParameterContainer Any)).
Implicit Types (v : option (ParameterContainer Any)).

(** ** Deep copies *)

Lemma deepcopy_items_copied (cs0 : gmap loc (ParameterContainer Any))
    (items : gmap string loc) :
  (∀ k x, items !! k = Some x → x ∈ dom cs0) →
  copied cs0 (map_fold deepcopy_item (cs0, ∅, ∅) items) items.
Proof.
  apply (map_fold_weak_ind
           (λ acc its, (∀ k x, its !! k = Some x → x ∈ dom cs0) →
                       copied cs0 acc its)).
  - intros _. split; [done|]. split; [intros x x'; by rewrite lookup_empty|].
    intros k. by rewrite !lookup_empty.
  - intros k x its [[cs memo] y] Hfresh IH Hlive.
    assert (x ∈ dom cs0) as Hx by (apply (Hlive k); by rewrite lookup_insert_eq).
    destruct IH as (Hsub & Hmemo & Hy).
    { intros k' x' Hk'. apply (Hlive k').
      rewrite lookup_insert_ne; [done|]. intros <-. congruence. }
    unfold deepcopy_item, deepcopy_value.
    destruct (memo !! x) as [x'|] eqn:Hmx; simpl.
    + split; [done|]. split; [done|]. intros k'.
      destruct (decide (k = k')) as [<-|Hne].
      * rewrite !lookup_insert_eq. eauto.
      * rewrite !lookup_insert_ne by done. apply Hy.
    + pose proof (is_fresh (dom cs)) as Hnew.
      set (x' := fresh (dom cs)) in *.
      assert (cs !! x' = None) as Hnone by (by apply not_elem_of_dom).
      assert (cs !!! x = cs0 !!! x) as Hval.
      { apply elem_of_dom in Hx as [c Hc].
        rewrite (lookup_total_correct _ _ _ Hc).
        apply lookup_total_correct. by eapply lookup_weaken. }
      split; [|split].
      * etrans; [exact Hsub|]. by apply insert_subseteq.
      * intros z z'. destruct (decide (x = z)) as [<-|Hne].
        -- rewrite lookup_insert_eq. intros [= <-]. split.
           ++ intros Hin. apply Hnew. by eapply subseteq_dom.
           ++ by rewrite lookup_insert_eq, Hval.
        -- rewrite lookup_insert_ne by done. intros Hz.
           destruct (Hmemo _ _ Hz) as [Hz1 Hz2]. split; [done|].
           rewrite lookup_insert_ne; [done|]. intros <-. congruence.
      * intros k'. destruct (decide (k = k')) as [<-|Hne].
        -- rewrite !lookup_insert_eq. eexists. split; [done|].
           done.
        -- rewrite !lookup_insert_ne by done. specialize (Hy k').
           destruct (its !! k') as [z|]; [|done].
           destruct Hy as (z' & Hz1 & Hz2). exists z'. split; [done|].
           rewrite lookup_insert_ne; [done|]. intros <-. congruence.
Qed.

(** [deepcopy] of a dictionary whose references are live: a new dictionary
    at a fresh address, old objects untouched, new containers only, equal
    in value. *)
Lemma deepcopy_spec h x :
  (∀ k l, (dicts h !!! x) !! k = Some l → l ∈ dom (containers h)) →
  ∃ cs y r,
    deepcopy h x = (mkHeap (<[r := y]> (dicts h)) cs, r) ∧
    (r ∉ dom (dicts h)) ∧
    containers h ⊆ cs ∧
    (∀ k l, y !! k = Some l → l ∈ dom cs ∧ (l ∉ dom (containers h))) ∧
    (λ l, cs !!! l) <$> y = (λ l, containers h !!! l) <$> (dicts h !!! x).
Proof.
  intros Hlive. unfold deepcopy.
  pose proof (deepcopy_items_copied (containers h) (dicts h !!! x) Hlive) as Hc.
  destruct (map_fold deepcopy_item (containers h, ∅, ∅) (dicts h !!! x))
    as [[cs memo] y].
  destruct Hc as (Hsub & Hmemo & Hy).
  exists cs, y, (fresh (dom (dicts h))).
  split; [done|]. split; [apply is_fresh|]. split; [done|]. split.
  - intros k l Hk. specialize (Hy k). destruct ((dicts h !!! x) !! k) as [z|].
    + destruct Hy as (z' & Hz1 & Hz2). simplify_eq.
      destruct (Hmemo _ _ Hz2) as [? Hl]. split; [|done].
      apply elem_of_dom. eauto.
    + congruence.
  - apply map_eq. intros k. rewrite !lookup_fmap. specialize (Hy k).
    destruct ((dicts h !!! x) !! k) as [z|]; simpl.
    + destruct Hy as (z' & -> & Hz2). simpl.
      destruct (Hmemo _ _ Hz2) as [_ Hl].
      by rewrite (lookup_total_correct _ _ _ Hl).
    + by rewrite Hy.
Qed.

Lemma heap_wf_owns h self : heap_wf h self ↔ ∃ dict, owns h self dict.
Proof.
  unfold heap_wf, owns. split.
  - destruct (dicts h !! _parameters self) as [dict|]; [|done]. eauto.
  - by intros (dict & -> & Hlive).
Qed.

Lemma view_owns h self dict :
  owns h self dict →
  view h (_parameters self) = (λ l, containers h !!! l) <$> dict.
Proof.
  intros [Hd _]. unfold view.
  by rewrite (lookup_total_correct _ _ _ Hd).
Qed.

(** Reading [parameters] leaves the Rule's dictionary and containers as
    they are, and the copy has the value of the original. *)
Lemma run_parameters_spec h self dict :
  owns h self dict →
  ∃ h1 r,
    run_parameters self h = (h1, r) ∧
    view h1 r = view h (_parameters self) ∧
    owns h1 self dict ∧
    containers h ⊆ containers h1 ∧
    (r ∉ dom (dicts h)) ∧
    (∃ y, dicts h1 = <[r := y]> (dicts h) ∧
          ∀ k l, y !! k = Some l → l ∈ dom (containers h1) ∧
                                   (l ∉ dom (containers h))).
Proof.
  intros [Hd Hlive]. unfold run_parameters.
  destruct (deepcopy_spec h (_parameters self)) as
    (cs & y & r & -> & Hr & Hsub & Hy & Hval).
  { by rewrite (lookup_total_correct _ _ _ Hd). }
  assert (r ≠ _parameters self) as Hne.
  { intros ->. apply Hr, elem_of_dom. eauto. }
  exists (mkHeap (<[r := y]> (dicts h)) cs), r.
  split; [done|]. split.
  { unfold view at 1. simpl. by rewrite lookup_total_insert_eq. }
  split.
  { split; simpl.
    - by rewrite lookup_insert_ne.
    - intros k x Hk. eapply subseteq_dom; [exact Hsub|]. eauto. }
  split; [done|]. split; [done|]. by exists y.
Qed.

Lemma view_frame h h1 self dict :
  owns h self dict →
  dicts h1 !! _parameters self = Some dict →
  containers h ⊆ containers h1 →
  view h1 (_parameters self) = view h (_parameters self).
Proof.
  intros [Hd Hlive] Hd1 Hsub. unfold view.
  rewrite (lookup_total_correct _ _ _ Hd), (lookup_total_correct _ _ _ Hd1).
  apply map_fmap_ext. intros k x Hk.
  pose proof (Hlive _ _ Hk) as Hx. apply elem_of_dom in Hx as [c Hc].
  rewrite (lookup_total_correct _ _ _ Hc).
  apply lookup_total_correct. by eapply lookup_weaken.
Qed.

(** A write through a reference that only the key [k] holds replaces the
    entry of [k]. *)
Lemma view_write h self dict k l c :
  owns h self dict →
  dict !! k = Some l →
  (∀ k', dict !! k' = Some l → k' = k) →
  view (mkHeap (dicts h) (<[l := c]> (containers h))) (_parameters self) =
  <[k := c]> (view h (_parameters self)).
Proof.
  intros [Hd Hlive] Hk Huniq. unfold view. simpl.
  rewrite (lookup_total_correct _ _ _ Hd).
  apply map_eq. intros k'. destruct (decide (k = k')) as [<-|Hne].
  - rewrite lookup_insert_eq, lookup_fmap, Hk. simpl.
    by rewrite lookup_total_insert_eq.
  - rewrite lookup_insert_ne, !lookup_fmap by done.
    destruct (dict !! k') as [l'|] eqn:Hk'; [simpl|done].
    rewrite lookup_total_insert_ne; [done|].
    intros <-. apply Hne. symmetry. by apply Huniq.
Qed.

Lemma view_lookup_total h self dict k l :
  owns h self dict →
  dict !! k = Some l →
  view h (_parameters self) !!! k = containers h !!! l.
Proof.
  intros Ho Hk. rewrite (view_owns _ _ _ Ho).
  apply lookup_total_correct. by rewrite lookup_fmap, Hk.
Qed.

(** ** [generate] and its reading on values *)

Lemma for_parameter_builders_refines self i bs :
  ∀ p l d v h tr dict,
    owns h self dict →
    dict !! Domain.id d = Some l →
    (∀ k, dict !! k = Some l → k = Domain.id d) →
    ∃ h' evs r,
      for_parameter_builders self i p bs l d v (mkState h tr) =
        (mkState h' (tr ++ evs), r) ∧
      value_parameter_builders i p bs d v (view h (_parameters self)) =
        (view h' (_parameters self), evs, r) ∧
      owns h' self dict.
Proof.
  induction bs as [|b bs IH]; intros p l d v h tr dict Ho Hl Huniq.
  - exists h, [], (Return tt). by rewrite app_nil_r.
  - destruct (run_parameters_spec h self dict Ho) as
      (h1 & r & Hrun & Hview & Ho1 & Hsub & _).
    pose proof (view_frame h h1 self dict Ho (proj1 Ho1) Hsub) as Hview1.
    assert (containers h1 !!! l = view h (_parameters self) !!! Domain.id d)
      as Hcell.
    { by rewrite <- Hview1, (view_lookup_total _ _ _ _ _ Ho1 Hl). }
    set (out := build_parameters b (view h (_parameters self) !!! Domain.id d)
                  d v (view h (_parameters self))).
    set (h2 := mkHeap (dicts h1) (<[l := out.1]> (containers h1))).
    assert (owns h2 self dict) as Ho2.
    { destruct Ho1 as [Hd1 Hlive1]. split; [done|]. intros k x Hk. simpl.
      rewrite dom_insert. apply elem_of_union_r. eauto. }
    assert (view h2 (_parameters self) =
            <[Domain.id d := out.1]> (view h (_parameters self))) as Hview2.
    { unfold h2. rewrite (view_write h1 self dict (Domain.id d)) by done.
      by rewrite Hview1. }
    simpl. unfold bind at 1, parameters. simpl. rewrite Hrun. simpl.
    unfold bind at 1, call_build_parameters. simpl.
    rewrite Hview, Hcell. fold out. fold h2.
    destruct (out.2) as [e|] eqn:Hout.
    + exists h2, [EvBuildParameters i p d v (view h (_parameters self)) out],
        (Raise e).
      split; [done|]. by rewrite Hview2.
    + destruct (IH (S p) l d v h2
                  (tr ++ [EvBuildParameters i p d v (view h (_parameters self)) out])
                  dict Ho2 Hl Huniq) as (h' & evs & r' & Hfor & Hval & Ho').
      exists h', (EvBuildParameters i p d v (view h (_parameters self)) out :: evs), r'.
      split; [by rewrite Hfor, <- app_assoc|].
      split; [|done]. by rewrite <- Hview2, Hval.
Qed.

Lemma for_expectation_configuration_builders_refines self i bs :
  ∀ j d v h tr dict acc,
    owns h self dict →
    ∃ h' evs r,
      for_expectation_configuration_builders self i j bs d v acc
        (mkState h tr) = (mkState h' (tr ++ evs), appended acc r) ∧
      value_expectation_configuration_builders i j bs d v
        (view h (_parameters self)) = (evs, r) ∧
      owns h' self dict ∧
      view h' (_parameters self) = view h (_parameters self).
Proof.
  induction bs as [|b bs IH]; intros j d v h tr dict acc Ho.
  - exists h, [], (Return []). simpl. unfold ret. by rewrite !app_nil_r.
  - destruct (run_parameters_spec h self dict Ho) as
      (h1 & r & Hrun & Hview & Ho1 & Hsub & _).
    pose proof (view_frame h h1 self dict Ho (proj1 Ho1) Hsub) as Hview1.
    set (out := build_expectation_configuration b d v
                  (view h (_parameters self))).
    set (ev := EvBuildExpectationConfiguration i j d v
                 (view h (_parameters self)) out).
    simpl. unfold bind at 1, parameters. simpl. rewrite Hrun. simpl.
    unfold bind at 1, call_build_expectation_configuration. simpl.
    rewrite Hview. fold out. fold ev.
    destruct out as [c|e] eqn:Hout.
    + destruct (IH (S j) d v h1 (tr ++ [ev]) dict (acc ++ [c]) Ho1)
        as (h' & evs & r' & Hfor & Hval & Ho' & Hview').
      rewrite Hview1 in Hval. rewrite Hval.
      exists h', (ev :: evs),
        (match r' with Return cs => Return (c :: cs) | Raise e => Raise e end).
      split.
      { rewrite Hfor, <- app_assoc. f_equal.
        destruct r' as [cs|e]; simpl; [|done]. by rewrite <- app_assoc. }
      split; [done|]. split; [done|]. by rewrite Hview'.
    + exists h1, [ev], (Raise e). done.
Qed.

(** Lines 62 to 65: the new container is empty, and only the key of the
    current domain refers to it. *)
Lemma register_spec h self dict d :
  owns h self dict →
  let l := fresh (dom (containers h)) in
  let h2 := mkHeap (<[_parameters self :=
                        <[Domain.id d := l]> (dicts h !!! _parameters self)]>
                      (dicts h))
                   (<[l := mkParameterContainer None]> (containers h)) in
  owns h2 self (<[Domain.id d := l]> dict) ∧
  (∀ k, <[Domain.id d := l]> dict !! k = Some l → k = Domain.id d) ∧
  view h2 (_parameters self) =
    <[Domain.id d := mkParameterContainer None]> (view h (_parameters self)).
Proof.
  intros [Hd Hlive] l h2.
  pose proof (is_fresh (dom (containers h))) as Hl. fold l in Hl.
  assert (dicts h2 !! _parameters self = Some (<[Domain.id d := l]> dict))
    as Hd2.
  { unfold h2. simpl.
    by rewrite lookup_insert_eq, (lookup_total_correct _ _ _ Hd). }
  split; [split; [done|]|split].
  - intros k x. unfold h2. simpl. rewrite dom_insert.
    destruct (decide (Domain.id d = k)) as [<-|Hne].
    + rewrite lookup_insert_eq. intros [= <-]. set_solver.
    + rewrite lookup_insert_ne by done. intros Hk.
      apply elem_of_union_r. eauto.
  - intros k. destruct (decide (Domain.id d = k)) as [<-|Hne]; [done|].
    rewrite lookup_insert_ne by done. intros Hk. destruct Hl. eauto.
  - unfold view. rewrite (lookup_total_correct _ _ _ Hd2).
    rewrite (lookup_total_correct _ _ _ Hd), fmap_insert.
    unfold h2 at 1. simpl. rewrite lookup_total_insert_eq. f_equal.
    apply map_fmap_ext. intros k x Hk. unfold h2. simpl.
    rewrite lookup_total_insert_ne; [done|]. intros <-. destruct Hl. eauto.
Qed.

Lemma for_domains_refines self ds :
  ∀ i v h tr acc,
    heap_wf h self →
    ∃ h' evs r,
      for_domains self i ds v acc (mkState h tr) =
        (mkState h' (tr ++ evs), appended acc r) ∧
      value_domains (_parameter_builders self)
        (_expectation_configuration_builders self) i ds v
        (view h (_parameters self)) = (view h' (_parameters self), evs, r) ∧
      heap_wf h' self.
Proof.
  induction ds as [|d ds IH]; intros i v h tr acc Hwf.
  - exists h, [], (Return []). simpl. unfold ret. by rewrite !app_nil_r.
  - apply heap_wf_owns in Hwf as [dict Ho].
    destruct (register_spec h self dict d Ho) as (Ho2 & Huniq & Hview2).
    set (l := fresh (dom (containers h))) in *.
    set (h2 := mkHeap _ _) in *.
    simpl. unfold bind at 1, new_ParameterContainer. simpl. fold l.
    unfold bind at 1, setitem. simpl. fold h2.
    unfold bind at 1, log. simpl.
    unfold value_domain. rewrite <- Hview2.
    destruct (_parameter_builders self) as [pbs|]; simpl.
    2:{ exists h2, [EvRegister i d], (Raise TypeError).
        split; [done|]. split; [done|]. apply heap_wf_owns. by eexists. }
    unfold bind at 1, ret at 1.
    destruct (for_parameter_builders_refines self i pbs 0 l d v h2
                (tr ++ [EvRegister i d]) _ Ho2 (lookup_insert_eq _ _ _) Huniq)
      as (h3 & evs1 & r1 & Hfor1 & Hval1 & Ho3).
    unfold bind at 1. rewrite Hfor1, Hval1.
    destruct r1 as [[]|e].
    2:{ exists h3, (EvRegister i d :: evs1), (Raise e).
        split; [by rewrite <- app_assoc|]. split; [done|].
        apply heap_wf_owns. by eexists. }
    destruct (_expectation_configuration_builders self) as [ecbs|]; simpl.
    2:{ exists h3, (EvRegister i d :: evs1), (Raise TypeError).
        split; [by rewrite <- app_assoc|]. split; [done|].
        apply heap_wf_owns. by eexists. }
    unfold bind at 1, ret at 1.
    destruct (for_expectation_configuration_builders_refines self i ecbs 0 d v
                h3 ((tr ++ [EvRegister i d]) ++ evs1) _ acc Ho3)
      as (h4 & evs2 & r2 & Hfor2 & Hval2 & Ho4 & Hview4).
    unfold bind at 1. rewrite Hfor2, Hval2.
    destruct r2 as [block|e]; simpl.
    2:{ exists h4, (EvRegister i d :: evs1 ++ evs2), (Raise e).
        split; [by rewrite <- !app_assoc|]. split; [by rewrite Hview4|].
        apply heap_wf_owns. by eexists. }
    destruct (IH (S i) v h4 (((tr ++ [EvRegister i d]) ++ evs1) ++ evs2)
                (acc ++ block)) as (h5 & evs3 & r3 & Hfor3 & Hval3 & Hwf5).
    { apply heap_wf_owns. by eexists. }
    rewrite Hfor3. rewrite Hview4 in Hval3. rewrite Hval3.
    exists h5, ((EvRegister i d :: evs1 ++ evs2) ++ evs3),
      (match r3 with Return cs => Return (block ++ cs) | Raise e => Raise e end).
    split.
    { f_equal; [f_equal; simpl; by rewrite <- !app_assoc|].
      destruct r3; simpl; [|done]. by rewrite app_assoc. }
    done.
Qed.

(** [generate] on a heap is its reading on values: the value of the
    Rule's dictionary after the call, the trace and the outcome only depend
    on the value of the dictionary before the call. *)
Lemma run_generate_refines self h v :
  heap_wf h self →
  ∃ h' tr r,
    run_generate self h v = (h', tr, r) ∧
    value_generate self v (view h (_parameters self)) =
      (view h' (_parameters self), tr, r) ∧
    heap_wf h' self.
Proof.
  intros Hwf. unfold run_generate, generate, value_generate.
  destruct (_domain_builder self) as [b|]; simpl.
  2:{ by exists h, [], (Raise AttributeError). }
  unfold bind, ret, call_get_domains, log; simpl.
  destruct (get_domains b (resolve_variables self v)) as [ds|e] eqn:Hds; simpl.
  2:{ by eexists h, _, _. }
  destruct (for_domains_refines self ds 0 (resolve_variables self v) h
              [EvGetDomains (resolve_variables self v) (Return ds)] [] Hwf)
    as (h' & evs & r & Hfor & Hval & Hwf').
  rewrite Hfor, Hval. simpl. eexists h', _, r. split; [|done].
  by destruct r.
Qed.

(** ** Lists of events *)

(** An element of a concatenation lies in its first or in its second
    part. *)
Lemma app_cons_eq_app {A} (l1 l2 a b : list A) (x : A) :
  l1 ++ x :: l2 = a ++ b →
  (∃ a2, a = l1 ++ x :: a2 ∧ l2 = a2 ++ b) ∨
  (∃ b1, l1 = a ++ b1 ∧ b = b1 ++ x :: l2).
Proof.
  revert l1. induction a as [|y a IH]; intros l1 Heq.
  - right. by exists l1.
  - destruct l1 as [|z l1]; simpl in Heq.
    + injection Heq as -> ->. left. by exists a.
    + injection Heq as -> Heq. destruct (IH _ Heq) as [[a2 [-> ->]]|[b1 [-> ->]]].
      * left. by exists a2.
      * right. by exists b1.
Qed.

Lemma replay_app (tr1 tr2 : list (event Any)) m :
  replay (tr1 ++ tr2) m = replay tr2 (replay tr1 m).
Proof. apply foldl_app. Qed.

Lemma replay_cons (ev : event Any) tr m :
  replay (ev :: tr) m = replay tr (replay_event m ev).
Proof. done. Qed.

Lemma replay_dom (tr : list (event Any)) m : dom m ⊆ dom (replay tr m).
Proof.
  revert m. induction tr as [|ev tr IH]; intros m; [done|].
  rewrite replay_cons. etrans; [|apply IH].
  unfold replay_event. destruct (written ev) as [[k c]|]; [|done].
  rewrite dom_insert. set_solver.
Qed.

(** The last write to a key decides its entry. *)
Lemma replay_last_write (tr1 tr2 : list (event Any)) ev m k c :
  written ev = Some (k, c) →
  Forall (λ ev', ∀ c', written ev' ≠ Some (k, c')) tr2 →
  replay (tr1 ++ ev :: tr2) m !! k = Some c.
Proof.
  intros Hev Hlater. rewrite replay_app, replay_cons.
  unfold replay_event at 1. rewrite Hev.
  generalize (replay tr1 m). intros m0.
  assert (<[k := c]> m0 !! k = Some c) as Hk by apply lookup_insert_eq.
  revert Hk. generalize (<[k := c]> m0). clear m0.
  induction Hlater as [|ev' tr2 Hev' _ IH]; intros m0 Hk; [done|].
  rewrite replay_cons. apply IH. unfold replay_event.
  destruct (written ev') as [[k' c']|] eqn:Hw; [|done].
  rewrite lookup_insert_ne; [done|]. intros ->. by eapply Hev'.
Qed.

(** The sequencing of two stretches of events. *)
Lemma sees_current_app m (evs1 evs2 : list (event Any)) :
  sees_current m evs1 →
  sees_current (replay evs1 m) evs2 →
  sees_current m (evs1 ++ evs2).
Proof.
  intros H1 H2 l1 ev l2 s Heq Hs.
  destruct (app_cons_eq_app _ _ _ _ _ (eq_sym Heq)) as [[a2 [-> ->]]|[b1 [-> ->]]].
  - by eapply H1.
  - rewrite replay_app. by eapply H2.
Qed.

Lemma sees_current_cons m (ev : event Any) evs :
  (∀ s, parameters_of ev = Some s → s = m) →
  sees_current (replay_event m ev) evs →
  sees_current m (ev :: evs).
Proof.
  intros H1 H2. apply (sees_current_app m [ev] evs); [|done].
  intros l1 ev' l2 s Heq Hs.
  destruct l1 as [|? l1]; simpl in Heq.
  - injection Heq as <- <-. by apply H1.
  - injection Heq as _ Heq. by destruct l1.
Qed.

Lemma sees_current_nil m : sees_current m ([] : list (event Any)).
Proof. intros l1 ev l2 s Heq. by destruct l1. Qed.

Lemma raise_ends_nil {A} (r : result A) :
  raise_ends ([] : list (event Any)) r.
Proof. intros l1 ev l2 e Heq. by destruct l1. Qed.

Lemma raise_ends_cons_quiet {A} (ev : event Any) evs (r : result A) :
  raised ev = None →
  raise_ends evs r →
  raise_ends (ev :: evs) r.
Proof.
  intros Hev H l1 ev' l2 e Heq Hr.
  destruct l1 as [|? l1]; simpl in Heq.
  - injection Heq as <- <-. congruence.
  - injection Heq as _ Heq. by eapply H.
Qed.

Lemma raise_ends_singleton {A} (ev : event Any) e :
  (∀ e', raised ev = Some e' → e' = e) →
  raise_ends [ev] (Raise e : result A).
Proof.
  intros Hev l1 ev' l2 e' Heq Hr.
  destruct l1 as [|? l1]; simpl in Heq.
  - injection Heq as <- <-. by rewrite (Hev _ Hr).
  - injection Heq as _ Heq. by destruct l1.
Qed.

Lemma raise_ends_quiet {A} (evs : list (event Any)) (r : result A) :
  Forall (λ ev, raised ev = None) evs →
  raise_ends evs r.
Proof.
  intros H. induction H as [|ev evs Hev _ IH]; [apply raise_ends_nil|].
  by apply raise_ends_cons_quiet.
Qed.

(** A first stretch that returned, followed by a second one. *)
Lemma raise_ends_app_return {A B} (evs1 evs2 : list (event Any))
    (a : A) (r : result B) :
  raise_ends evs1 (Return a) →
  raise_ends evs2 r →
  raise_ends (evs1 ++ evs2) r.
Proof.
  intros H1 H2 l1 ev l2 e Heq Hr.
  destruct (app_cons_eq_app _ _ _ _ _ (eq_sym Heq)) as [[a2 [-> ->]]|[b1 [-> ->]]].
  - by destruct (H1 _ _ _ _ eq_refl Hr).
  - by eapply H2.
Qed.

Lemma raise_ends_retype {A B} (evs : list (event Any)) e :
  raise_ends evs (Raise e : result A) →
  raise_ends evs (Raise e : result B).
Proof.
  intros H l1 ev l2 e' Heq Hr.
  destruct (H _ _ _ _ Heq Hr) as [-> [= ->]]. done.
Qed.

(** A run that returned had no invocation that raised. *)
Lemma raise_ends_return {A} (evs : list (event Any)) (a : A) :
  raise_ends evs (Return a) →
  Forall (λ ev, raised ev = None) evs.
Proof.
  intros H. apply Forall_forall. intros ev Hev.
  apply list_elem_of_split in Hev as (l1 & l2 & ->).
  destruct (raised ev) as [e|] eqn:Hr; [|done].
  by destruct (H _ _ _ _ eq_refl Hr).
Qed.

(** Everything before another event returned. *)
Lemma raise_ends_before {A} (evs1 evs2 : list (event Any)) ev (r : result A) :
  raise_ends (evs1 ++ ev :: evs2) r →
  Forall (λ ev', raised ev' = None) evs1.
Proof.
  intros H. apply Forall_forall. intros ev' Hev.
  apply list_elem_of_split in Hev as (l1 & l2 & ->).
  destruct (raised ev') as [e|] eqn:Hr; [|done].
  destruct (H l1 ev' (l2 ++ ev :: evs2) e) as [Hnil _]; [|done|].
  - by rewrite <- app_assoc.
  - by destruct l2.
Qed.

(** ** The run on values, loop by loop

    For each loop: the final map is the initial one after the writes of the
    trace; every builder sees the map as it is when it is called; an
    invocation that raises ends the loop with its exception; every
    invocation is passed [v] and belongs to iteration [i]. *)

Lemma value_parameter_builders_trace i bs d v :
  ∀ p m,
    let '(m', evs, r) := value_parameter_builders i p bs d v m in
    m' = replay evs m ∧
    sees_current m evs ∧
    raise_ends evs r ∧
    Forall (λ ev, variables_of ev = Some v) evs ∧
    Forall (λ ev, iteration_of (call_of ev) = Some (i, d)) evs.
Proof.
  induction bs as [|b bs IH]; intros p m; simpl.
  - split; [done|]. split; [apply sees_current_nil|].
    split; [apply raise_ends_nil|]. by split.
  - destruct (build_parameters b (m !!! Domain.id d) d v m) as [c [e|]]
      eqn:Hout; simpl.
    + split; [done|]. split.
      { apply sees_current_cons; [by intros s [= <-]|apply sees_current_nil]. }
      split; [apply raise_ends_singleton; by intros e' [= <-]|].
      split; by repeat constructor.
    + specialize (IH (S p) (<[Domain.id d := c]> m)).
      destruct (value_parameter_builders i (S p) bs d v
                  (<[Domain.id d := c]> m)) as [[m2 evs] r].
      destruct IH as (Hm & Hsees & Hraise & Hv & Hi).
      split; [done|]. split.
      { apply sees_current_cons; [by intros s [= <-]|done]. }
      split; [by apply raise_ends_cons_quiet|].
      split; by constructor.
Qed.

Lemma value_expectation_configuration_builders_trace i bs d v m :
  ∀ j,
    let '(evs, r) :=
      value_expectation_configuration_builders i j bs d v m in
    replay evs m = m ∧
    Forall (λ ev, parameters_of ev = Some m) evs ∧
    Forall (λ ev, written ev = None) evs ∧
    raise_ends evs r ∧
    Forall (λ ev, variables_of ev = Some v) evs ∧
    Forall (λ ev, iteration_of (call_of ev) = Some (i, d)) evs.
Proof.
  induction bs as [|b bs IH]; intros j; simpl.
  - split; [done|]. split; [done|]. split; [done|].
    split; [apply raise_ends_nil|]. by split.
  - destruct (build_expectation_configuration b d v m) as [c|e] eqn:Hout.
    + specialize (IH (S j)).
      destruct (value_expectation_configuration_builders i (S j) bs d v m)
        as [evs r].
      destruct IH as (Hm & Hs & Hw & Hraise & Hv & Hi).
      split; [done|]. split; [by constructor|]. split; [by constructor|].
      split; [|split; by constructor].
      apply raise_ends_cons_quiet; [done|].
      destruct r as [cs|e]; [|by eapply raise_ends_retype].
      intros l1 ev l2 e Heq Hr. by destruct (Hraise _ _ _ _ Heq Hr).
    + split; [done|]. split; [by repeat constructor|].
      split; [by repeat constructor|].
      split; [apply raise_ends_singleton; by intros e' [= <-]|].
      split; by repeat constructor.
Qed.

Lemma sees_current_constant m (evs : list (event Any)) :
  Forall (λ ev, parameters_of ev = Some m) evs →
  Forall (λ ev, written ev = None) evs →
  sees_current m evs.
Proof.
  intros Hs Hw. induction evs as [|ev evs IH]; [apply sees_current_nil|].
  apply Forall_cons in Hs as [Hs1 Hs], Hw as [Hw1 Hw].
  apply sees_current_cons.
  - intros s. rewrite Hs1. by intros [= <-].
  - unfold replay_event. rewrite Hw1. by apply IH.
Qed.

Lemma value_domain_trace pbs ecbs i d v m :
  let '(m', evs, r) := value_domain pbs ecbs i d v m in
  m' = replay evs m ∧
  sees_current m evs ∧
  raise_ends evs r ∧
  Forall (λ ev, ∀ v0, variables_of ev = Some v0 → v0 = v) evs ∧
  Forall (λ ev, iteration_of (call_of ev) = Some (i, d)) evs.
Proof.
  unfold value_domain.
  set (m1 := <[Domain.id d := mkParameterContainer None]> m).
  assert (∀ evs, sees_current m1 evs → sees_current m (EvRegister i d :: evs))
    as Hreg.
  { intros evs Hs. apply sees_current_cons; [done|exact Hs]. }
  destruct pbs as [pbs|].
  2:{ split; [done|]. split; [apply Hreg, sees_current_nil|].
      split; [|split; by repeat constructor].
      apply raise_ends_quiet. by repeat constructor. }
  pose proof (value_parameter_builders_trace i pbs d v 0 m1) as H1.
  destruct (value_parameter_builders i 0 pbs d v m1) as [[m2 evs1] r1].
  destruct H1 as (Hm1 & Hsees1 & Hraise1 & Hv1 & Hi1).
  assert (Forall (λ ev : event Any, ∀ v0, variables_of ev = Some v0 → v0 = v)
            (EvRegister i d :: evs1)) as Hv1'.
  { constructor; [done|]. eapply Forall_impl; [exact Hv1|].
    intros ev ->. by intros v0 [= <-]. }
  destruct r1 as [[]|e].
  2:{ split; [done|]. split; [by apply Hreg|].
      split; [|split; [done|by constructor]].
      apply raise_ends_cons_quiet; [done|]. by eapply raise_ends_retype. }
  destruct ecbs as [ecbs|].
  2:{ split; [done|]. split; [by apply Hreg|].
      split; [|split; [done|by constructor]].
      apply raise_ends_quiet. constructor; [done|].
      by eapply raise_ends_return. }
  pose proof (value_expectation_configuration_builders_trace i ecbs d v m2 0)
    as H2.
  destruct (value_expectation_configuration_builders i 0 ecbs d v m2)
    as [evs2 r2].
  destruct H2 as (Hm2 & Hs2 & Hw2 & Hraise2 & Hv2 & Hi2).
  split.
  { change (EvRegister i d :: evs1 ++ evs2)
      with ((EvRegister i d :: evs1) ++ evs2).
    rewrite replay_app. change (replay (EvRegister i d :: evs1) m)
      with (replay evs1 m1). by rewrite <- Hm1, Hm2. }
  split.
  { apply Hreg, sees_current_app; [done|]. rewrite <- Hm1.
    by apply sees_current_constant. }
  split.
  { apply raise_ends_cons_quiet; [done|].
    by eapply raise_ends_app_return. }
  split.
  - change (EvRegister i d :: evs1 ++ evs2)
      with ((EvRegister i d :: evs1) ++ evs2).
    apply Forall_app. split; [done|]. eapply Forall_impl; [exact Hv2|].
    intros ev ->. by intros v0 [= <-].
  - constructor; [done|]. by apply Forall_app.
Qed.

Lemma value_domains_trace pbs ecbs ds v :
  ∀ i m,
    let '(m', evs, r) := value_domains pbs ecbs i ds v m in
    m' = replay evs m ∧
    sees_current m evs ∧
    raise_ends evs r ∧
    Forall (λ ev, ∀ v0, variables_of ev = Some v0 → v0 = v) evs ∧
    Forall (λ ev, ∃ i' d', iteration_of (call_of ev) = Some (i', d') ∧
                     (i ≤ i')%nat) evs.
Proof.
  induction ds as [|d ds IH]; intros i m; simpl.
  - split; [done|]. split; [apply sees_current_nil|].
    split; [apply raise_ends_nil|]. by split.
  - pose proof (value_domain_trace pbs ecbs i d v m) as H1.
    destruct (value_domain pbs ecbs i d v m) as [[m1 evs1] r1].
    destruct H1 as (Hm1 & Hsees1 & Hraise1 & Hv1 & Hi1).
    assert (Forall (λ ev : event Any,
                      ∃ i' d', iteration_of (call_of ev) = Some (i', d') ∧
                               (i ≤ i')%nat) evs1)
      as Hi1'.
    { eapply Forall_impl; [exact Hi1|]. intros ev Hev. exists i, d. by split. }
    destruct r1 as [block|e]; [|done].
    specialize (IH (S i) m1).
    destruct (value_domains pbs ecbs (S i) ds v m1) as [[m2 evs2] r2].
    destruct IH as (Hm2 & Hsees2 & Hraise2 & Hv2 & Hi2).
    split; [by rewrite replay_app, <- Hm1|].
    split; [apply sees_current_app; [done|by rewrite <- Hm1]|].
    split.
    { apply (raise_ends_app_return _ _ block); [done|].
      destruct r2 as [cs|e]; [|by eapply raise_ends_retype].
      intros l1 ev l2 e Heq Hr. by destruct (Hraise2 _ _ _ _ Heq Hr). }
    split; [by apply Forall_app|].
    apply Forall_app. split; [done|]. eapply Forall_impl; [exact Hi2|].
    intros ev (i' & d' & Hev & Hle). exists i', d'. split; [done|lia].
Qed.

Lemma value_generate_trace self v m :
  let '(m', evs, r) := value_generate self v m in
  m' = replay evs m ∧
  sees_current m evs ∧
  raise_ends evs r ∧
  Forall (λ ev, ∀ v0, variables_of ev = Some v0 →
                      v0 = resolve_variables self v) evs.
Proof.
  unfold value_generate.
  destruct (_domain_builder self) as [b|].
  2:{ split; [done|]. split; [apply sees_current_nil|].
      split; [apply raise_ends_nil|done]. }
  destruct (get_domains b (resolve_variables self v)) as [ds|e] eqn:Hds.
  2:{ split; [done|]. split.
      { apply sees_current_cons; [done|apply sees_current_nil]. }
      split; [apply raise_ends_singleton; by intros e' [= <-]|].
      repeat constructor. by intros v0 [= <-]. }
  pose proof (value_domains_trace (_parameter_builders self)
                (_expectation_configuration_builders self) ds
                (resolve_variables self v) 0 m) as H.
  destruct (value_domains _ _ 0 ds _ m) as [[m' evs] r].
  destruct H as (Hm & Hsees & Hraise & Hv & _).
  split; [done|]. split; [by apply sees_current_cons|].
  split; [by apply raise_ends_cons_quiet|].
  constructor; [by intros v0 [= <-]|done].
Qed.

(** ** Properties of [generate] *)

(** A run on a well-formed heap, with what the reading on values says
    about its trace. *)
Ltac by_refinement self h v Hwf :=
  let h' := fresh "h'" in
  let tr := fresh "tr" in
  let r := fresh "r" in
  let Hrun := fresh "Hrun" in
  let Hval := fresh "Hval" in
  let Hwf' := fresh "Hwf'" in
  let Htrace := fresh "Htrace" in
  destruct (run_generate_refines self h v Hwf)
    as (h' & tr & r & Hrun & Hval & Hwf');
  rewrite Hrun;
  pose proof (value_generate_trace self v (view h (_parameters self)))
    as Htrace;
  rewrite Hval in Htrace;
  destruct Htrace as (Hm & Hsees & Hraise & Hvars).

(** C3.  Whenever an invocation of the domain builder, of a parameter
    builder or of an expectation configuration builder raises during
    [generate], that invocation is the last one of the call and [generate]
    ends with the exception raised: its outcome is [Raise], which carries no
    list. *)
Theorem generate_propagates_errors self h v :
  heap_wf h self →
  let '(_, tr, r) := run_generate self h v in
  ∀ ev e, ev ∈ tr → raised ev = Some e → r = Raise e ∧ last tr = Some ev.
Proof.
  intros Hwf. by_refinement self h v Hwf.
  intros ev e Hev Hr. apply list_elem_of_split in Hev as (l1 & l2 & ->).
  destruct (Hraise _ _ _ _ eq_refl Hr) as [-> ->].
  split; [done|]. by rewrite last_snoc.
Qed.

(** C4.  When the domain builder raises, [generate] ends with that
    exception, the domain builder's invocation is the only event of the
    call, and the heap, hence the Rule's parameter map, is as before. *)
Theorem generate_discovery_failure self h v b e :
  _domain_builder self = Some b →
  get_domains b (resolve_variables self v) = Raise e →
  let '(h', tr, r) := run_generate self h v in
  r = Raise e ∧
  tr = [EvGetDomains (resolve_variables self v) (Raise e)] ∧
  h' = h.
Proof.
  intros Hb Hget. unfold run_generate, generate. rewrite Hb. simpl.
  unfold bind, ret, call_get_domains, log, bind. simpl. by rewrite Hget.
Qed.

(** C8.  Every invocation of a builder during [generate] is passed the
    profiler's stored variables when the argument is [None], and the
    caller's value otherwise. *)
Theorem generate_variables_resolution self h v :
  heap_wf h self →
  let '(_, tr, _) := run_generate self h v in
  Forall (λ ev, ∀ v0, variables_of ev = Some v0 →
                      v0 = match v with
                           | None => profiler_variables (_rule_based_profiler self)
                           | Some c => Some c
                           end) tr.
Proof.
  intros Hwf. by_refinement self h v Hwf.
  eapply Forall_impl; [exact Hvars|]. intros ev Hev v0 Hv0.
  rewrite (Hev _ Hv0). by destruct v.
Qed.

(** C9.  When [generate] ends with an exception, the Rule's parameter map
    holds every write made up to the failure: it is the map before the call
    after the writes of the trace, so that the container of each domain is as
    the last invocation that wrote to it left it, whether that invocation
    returned or raised; and a later read of [parameters] shows this map. *)
Theorem generate_failure_keeps_parameters self h v :
  heap_wf h self →
  let '(h', tr, r) := run_generate self h v in
  ∀ e, r = Raise e →
    view h' (_parameters self) = replay tr (view h (_parameters self)) ∧
    (∀ tr1 ev tr2 k c,
       tr = tr1 ++ ev :: tr2 →
       written ev = Some (k, c) →
       Forall (λ ev', ∀ c', written ev' ≠ Some (k, c')) tr2 →
       view h' (_parameters self) !! k = Some c) ∧
    (let '(h1, r1) := run_parameters self h' in
     view h1 r1 = view h' (_parameters self)).
Proof.
  intros Hwf. by_refinement self h v Hwf. intros e _.
  split; [done|]. split.
  - intros tr1 ev tr2 k c -> Hw Hlater. rewrite Hm.
    by apply replay_last_write.
  - apply heap_wf_owns in Hwf' as [dict Ho].
    destruct (run_parameters_spec h' self dict Ho)
      as (h1 & r1 & -> & Hview & _). done.
Qed.

(** C7, amended.  The outcome and the trace of [generate], and the value of
    the Rule's parameter map after the call, are determined by the Rule, the
    variables and the value of the parameter map before the call: two calls
    that start from maps of equal value give the same configurations. *)
Theorem generate_deterministic self h1 h2 v :
  heap_wf h1 self →
  heap_wf h2 self →
  view h1 (_parameters self) = view h2 (_parameters self) →
  let '(h1', tr1, r1) := run_generate self h1 v in
  let '(h2', tr2, r2) := run_generate self h2 v in
  r1 = r2 ∧ tr1 = tr2 ∧
  view h1' (_parameters self) = view h2' (_parameters self).
Proof.
  intros Hwf1 Hwf2 Hview.
  destruct (run_generate_refines self h1 v Hwf1)
    as (h1' & tr1 & r1 & -> & Hval1 & _).
  destruct (run_generate_refines self h2 v Hwf2)
    as (h2' & tr2 & r2 & -> & Hval2 & _).
  rewrite Hview, Hval2 in Hval1. by simplify_eq.
Qed.

(** C10, amended.  Without a domain builder every call of [generate] raises
    [AttributeError], with nothing done.  Without the list of parameter
    builders or the list of expectation configuration builders, a call for
    which the domain builder returns at least one domain raises, and it
    raises [TypeError] when the list of parameter builders is the missing
    one; a call for which the domain builder returns no domain returns the
    empty list, whatever the two lists are. *)
Theorem generate_without_builders self h v :
  (_domain_builder self = None →
   run_generate self h v = (h, [], Raise AttributeError)) ∧
  (∀ b, _domain_builder self = Some b →
        get_domains b (resolve_variables self v) = Return [] →
        run_generate self h v =
          (h, [EvGetDomains (resolve_variables self v) (Return [])],
           Return [])) ∧
  (∀ b d ds,
     heap_wf h self →
     _domain_builder self = Some b →
     get_domains b (resolve_variables self v) = Return (d :: ds) →
     _parameter_builders self = None ∨
       _expectation_configuration_builders self = None →
     ∃ e, (run_generate self h v).2 = Raise e ∧
          (_parameter_builders self = None → e = TypeError)).
Proof.
  split; [|split].
  - intros Hb. unfold run_generate, generate. by rewrite Hb.
  - intros b Hb Hget. unfold run_generate, generate. rewrite Hb. simpl.
    unfold bind, ret, call_get_domains, log, bind. simpl. by rewrite Hget.
  - intros b d ds Hwf Hb Hget Hnone.
    destruct (run_generate_refines self h v Hwf)
      as (h' & tr & r & -> & Hval & _). simpl.
    unfold value_generate in Hval. rewrite Hb, Hget in Hval.
    simpl in Hval. unfold value_domain in Hval.
    destruct (_parameter_builders self) as [pbs|].
    2:{ simplify_eq. by exists TypeError. }
    destruct Hnone as [?|Hnone]; [done|]. rewrite Hnone in Hval.
    destruct (value_parameter_builders 0 0 pbs d _ _) as [[m2 evs1] [[]|e]];
      simplify_eq; by eexists.
Qed.

(** *** The invocations behind the events *)

Lemma value_parameter_builders_records i bs d v :
  ∀ pre m,
    Forall (λ ev, ∀ ecbs ds, ds !! i = Some d →
                  invocation_of (pre ++ bs) ecbs ds v ev)
      (value_parameter_builders i (length pre) bs d v m).1.2.
Proof.
  induction bs as [|b bs IH]; intros pre m; [done|].
  cbn [value_parameter_builders].
  assert (∀ ecbs ds, ds !! i = Some d →
            invocation_of (pre ++ b :: bs) ecbs ds v
              (EvBuildParameters i (length pre) d v m
                 (build_parameters b (m !!! Domain.id d) d v m))) as Hev.
  { intros ecbs ds Hd. split; [done|]. split; [done|]. exists b.
    split; [by apply list_lookup_middle|done]. }
  destruct (build_parameters b (m !!! Domain.id d) d v m) as [c [e|]] eqn:Hout;
    cbn [fst snd].
  - by constructor.
  - specialize (IH (pre ++ [b]) (<[Domain.id d := c]> m)).
    rewrite length_app, Nat.add_1_r, <- app_assoc in IH.
    destruct (value_parameter_builders i (S (length pre)) bs d v _)
      as [[m2 evs] r].
    by constructor.
Qed.

Lemma value_expectation_configuration_builders_records i bs d v m :
  ∀ pre,
    Forall (λ ev, ∀ pbs ds, ds !! i = Some d →
                  invocation_of pbs (pre ++ bs) ds v ev)
      (value_expectation_configuration_builders i (length pre) bs d v m).1.
Proof.
  induction bs as [|b bs IH]; intros pre; [done|].
  cbn [value_expectation_configuration_builders].
  assert (∀ pbs ds, ds !! i = Some d →
            invocation_of pbs (pre ++ b :: bs) ds v
              (EvBuildExpectationConfiguration i (length pre) d v m
                 (build_expectation_configuration b d v m))) as Hev.
  { intros pbs ds Hd. split; [done|]. split; [done|]. exists b.
    split; [by apply list_lookup_middle|done]. }
  destruct (build_expectation_configuration b d v m) as [c|e] eqn:Hout.
  - specialize (IH (pre ++ [b])).
    rewrite length_app, Nat.add_1_r, <- app_assoc in IH.
    destruct (value_expectation_configuration_builders i (S (length pre)) bs
                d v m) as [evs r].
    by constructor.
  - by constructor.
Qed.

Lemma value_domain_records pbs ecbs i d v m :
  Forall (λ ev, ∀ ds, ds !! i = Some d →
                invocation_of (default [] pbs) (default [] ecbs) ds v ev)
    (value_domain pbs ecbs i d v m).1.2.
Proof.
  unfold value_domain.
  set (m1 := <[Domain.id d := mkParameterContainer None]> m).
  destruct pbs as [pbs|]; [|by repeat constructor].
  pose proof (value_parameter_builders_records i pbs d v [] m1) as H1.
  cbn [length app] in H1.
  destruct (value_parameter_builders i 0 pbs d v m1) as [[m2 evs1] r1].
  cbn [fst snd default] in *.
  assert (Forall (λ ev : event Any, ∀ ds, ds !! i = Some d →
                    invocation_of pbs (default [] ecbs) ds v ev)
            (EvRegister i d :: evs1)) as Hfirst.
  { constructor; [done|]. eapply Forall_impl; [exact H1|].
    intros ev Hev ds Hd. by apply Hev. }
  destruct r1 as [[]|e]; [|done].
  destruct ecbs as [ecbs|]; [|done].
  pose proof (value_expectation_configuration_builders_records i ecbs d v m2
                []) as H2.
  cbn [length app] in H2.
  destruct (value_expectation_configuration_builders i 0 ecbs d v m2)
    as [evs2 r2].
  cbn [fst snd default] in *.
  change (EvRegister i d :: evs1 ++ evs2)
    with ((EvRegister i d :: evs1) ++ evs2).
  apply Forall_app. split; [done|]. eapply Forall_impl; [exact H2|].
  intros ev Hev ds Hd. by apply Hev.
Qed.

Lemma value_domains_records pbs ecbs ds v :
  ∀ pre m,
    Forall (invocation_of (default [] pbs) (default [] ecbs) (pre ++ ds) v)
      (value_domains pbs ecbs (length pre) ds v m).1.2.
Proof.
  induction ds as [|d ds IH]; intros pre m; [done|].
  cbn [value_domains].
  pose proof (value_domain_records pbs ecbs (length pre) d v m) as H1.
  destruct (value_domain pbs ecbs (length pre) d v m) as [[m1 evs1] r1].
  cbn [fst snd] in H1.
  assert (Forall (invocation_of (default [] pbs) (default [] ecbs)
                    (pre ++ d :: ds) v) evs1) as Hfirst.
  { eapply Forall_impl; [exact H1|]. intros ev Hev. apply Hev.
    by apply list_lookup_middle. }
  destruct r1 as [block|e]; [|done].
  specialize (IH (pre ++ [d]) m1).
  rewrite length_app, Nat.add_1_r, <- app_assoc in IH.
  destruct (value_domains pbs ecbs (S (length pre)) ds v m1)
    as [[m2 evs2] r2].
  cbn [fst snd] in *. by apply Forall_app.
Qed.

Lemma value_generate_records self v m :
  Forall (records_invocation self v) (value_generate self v m).1.2.
Proof.
  unfold value_generate.
  destruct (_domain_builder self) as [b|] eqn:Hb; [|done].
  destruct (get_domains b (resolve_variables self v)) as [ds|e] eqn:Hds.
  - pose proof (value_domains_records (_parameter_builders self)
                  (_expectation_configuration_builders self) ds
                  (resolve_variables self v) [] m) as H.
    cbn [length app] in H.
    destruct (value_domains _ _ 0 ds _ m) as [[m' evs] r].
    cbn [fst snd] in *. constructor.
    + exists b. by rewrite Hds.
    + eapply Forall_impl; [exact H|]. intros ev Hev.
      unfold records_invocation, discovered. rewrite Hb, Hds.
      by destruct ev.
  - repeat constructor. exists b. by rewrite Hds.
Qed.

(** *** Registration *)

Lemma registers_first_iteration i d (evs : list (event Any)) :
  Forall (λ ev, iteration_of (call_of ev) = Some (i, d)) evs →
  registers_first (EvRegister i d :: evs).
Proof.
  intros Hall l1 ev l2 i' d' Heq Hit.
  destruct l1 as [|ev0 l1]; simpl in Heq.
  - injection Heq as <- _. simpl in Hit. injection Hit as <- <-. by left.
  - injection Heq as <- ->. right.
    apply Forall_app in Hall as [_ Hall].
    apply Forall_cons in Hall as [Hev _].
    rewrite Hev in Hit. injection Hit as <- <-. by left.
Qed.

Lemma registers_first_app (evs1 evs2 : list (event Any)) :
  registers_first evs1 →
  registers_first evs2 →
  registers_first (evs1 ++ evs2).
Proof.
  intros H1 H2 l1 ev l2 i d Heq Hit.
  destruct (app_cons_eq_app _ _ _ _ _ (eq_sym Heq)) as [[a2 [-> ->]]|[b1 [-> ->]]].
  - by eapply H1.
  - destruct (H2 _ _ _ _ _ eq_refl Hit) as [->|Hin]; [by left|].
    right. apply elem_of_app. by right.
Qed.

Lemma registers_first_nil : registers_first ([] : list (event Any)).
Proof. intros l1 ev l2 i d Heq. by destruct l1. Qed.

(** An iteration starts with its registration. *)
Lemma value_domain_head pbs ecbs i d v m :
  ∃ evs, (value_domain pbs ecbs i d v m).1.2 = EvRegister i d :: evs.
Proof.
  unfold value_domain. destruct pbs as [pbs|]; [|by eexists].
  destruct (value_parameter_builders i 0 pbs d v _) as [[m2 evs1] [[]|e]];
    [|by eexists].
  destruct ecbs as [ecbs|]; [|by eexists].
  destruct (value_expectation_configuration_builders i 0 ecbs d v m2)
    as [evs2 r2]. by eexists.
Qed.

Lemma value_domains_registers_first pbs ecbs ds v :
  ∀ i m, registers_first (value_domains pbs ecbs i ds v m).1.2.
Proof.
  induction ds as [|d ds IH]; intros i m; simpl; [apply registers_first_nil|].
  pose proof (value_domain_trace pbs ecbs i d v m) as H1.
  destruct (value_domain_head pbs ecbs i d v m) as [evs Hhead].
  destruct (value_domain pbs ecbs i d v m) as [[m1 evs1] r1].
  simpl in Hhead. subst evs1.
  destruct H1 as (_ & _ & _ & _ & Hi1).
  apply Forall_cons in Hi1 as [_ Hi1].
  pose proof (registers_first_iteration i d evs Hi1) as Hfirst.
  destruct r1 as [block|e]; [|done].
  specialize (IH (S i) m1).
  destruct (value_domains pbs ecbs (S i) ds v m1) as [[m2 evs2] r2].
  by apply registers_first_app.
Qed.

Lemma value_generate_registers_first self v m :
  registers_first (value_generate self v m).1.2.
Proof.
  unfold value_generate.
  destruct (_domain_builder self) as [b|]; [|apply registers_first_nil].
  destruct (get_domains b (resolve_variables self v)) as [ds|e].
  - pose proof (value_domains_registers_first (_parameter_builders self)
                  (_expectation_configuration_builders self) ds
                  (resolve_variables self v) 0 m) as H.
    destruct (value_domains _ _ 0 ds _ m) as [[m' evs] r]. simpl in *.
    apply (registers_first_app [EvGetDomains _ _] evs); [|done].
    intros l1 ev l2 i d Heq Hit. destruct l1 as [|? [|]]; by simplify_eq/=.
  - intros l1 ev l2 i d Heq Hit. destruct l1 as [|? [|]]; by simplify_eq/=.
Qed.

Lemma replay_written_dom (tr : list (event Any)) ev m k c :
  ev ∈ tr →
  written ev = Some (k, c) →
  k ∈ dom (replay tr m).
Proof.
  intros Hev Hw. apply list_elem_of_split in Hev as (l1 & l2 & ->).
  rewrite replay_app, replay_cons. apply replay_dom.
  unfold replay_event. rewrite Hw, dom_insert. set_solver.
Qed.

(** The domains registered are the first domains of the list, in order, and
    all of them when the loop returns. *)
Lemma value_domains_registered pbs ecbs ds v :
  ∀ i0 m,
    let '(_, evs, r) := value_domains pbs ecbs i0 ds v m in
    (∀ i d, EvRegister i d ∈ evs →
       ∃ k, i = i0 + k ∧ ds !! k = Some d ∧
            ∀ k' d', k' < k → ds !! k' = Some d' →
                     EvRegister (i0 + k') d' ∈ evs) ∧
    (∀ d0, head ds = Some d0 → EvRegister i0 d0 ∈ evs) ∧
    (∀ x, r = Return x →
       ∀ k d, ds !! k = Some d → EvRegister (i0 + k) d ∈ evs).
Proof.
  induction ds as [|d0 ds IH]; intros i0 m.
  { simpl. split; [by intros ? ? ?%elem_of_nil|]. by split. }
  cbn [value_domains].
  pose proof (value_domain_trace pbs ecbs i0 d0 v m) as Ht1.
  destruct (value_domain_head pbs ecbs i0 d0 v m) as [rest Hhead].
  destruct (value_domain pbs ecbs i0 d0 v m) as [[m1 evs1] r1].
  cbn [fst snd] in Hhead. subst evs1.
  destruct Ht1 as (_ & _ & _ & _ & Hi1).
  assert (∀ i d, EvRegister i d ∈ EvRegister i0 d0 :: rest →
                 i = i0 ∧ d = d0) as Honly.
  { intros i d Hin.
    pose proof (proj1 (Forall_forall _ _) Hi1 _ Hin) as Hit.
    simpl in Hit. by simplify_eq. }
  destruct r1 as [block|e].
  2:{ split; [|split; [|done]].
      - intros i d Hin. destruct (Honly _ _ Hin) as [-> ->].
        exists 0. split; [lia|]. split; [done|]. intros k' d' Hk'. lia.
      - intros d [= <-]. by left. }
  specialize (IH (S i0) m1).
  destruct (value_domains pbs ecbs (S i0) ds v m1) as [[m2 evs2] r2].
  destruct IH as (Hseg & _ & Hall).
  split; [|split].
  - intros i d [Hin|Hin]%elem_of_app.
    + destruct (Honly _ _ Hin) as [-> ->].
      exists 0. split; [lia|]. split; [done|]. intros k' d' Hk'. lia.
    + destruct (Hseg _ _ Hin) as (k & -> & Hk & Hbefore).
      exists (S k). split; [lia|]. split; [done|].
      intros [|k'] d' Hlt Hd'; simpl in Hd'.
      * simplify_eq. rewrite Nat.add_0_r. apply elem_of_app. left. by left.
      * apply elem_of_app. right.
        replace (i0 + S k') with (S i0 + k') by lia.
        apply Hbefore; [lia|done].
  - intros d [= <-]. apply elem_of_app. left. by left.
  - intros x Hx [|k] d Hd; simpl in Hd.
    + simplify_eq. rewrite Nat.add_0_r. apply elem_of_app. left. by left.
    + destruct r2 as [cs|e]; [|done]. apply elem_of_app. right.
      replace (i0 + S k) with (S i0 + k) by lia. by eapply Hall.
Qed.

Lemma value_generate_registered self v m :
  let '(_, evs, r) := value_generate self v m in
  (∀ i d, EvRegister i d ∈ evs →
     discovered self v !! i = Some d ∧
     ∀ i' d', i' < i → discovered self v !! i' = Some d' →
              EvRegister i' d' ∈ evs) ∧
  (∀ d0, head (discovered self v) = Some d0 → EvRegister 0 d0 ∈ evs) ∧
  (∀ x, r = Return x →
     ∀ i d, discovered self v !! i = Some d → EvRegister i d ∈ evs).
Proof.
  unfold value_generate, discovered.
  destruct (_domain_builder self) as [b|].
  2:{ split; [by intros ? ? ?%elem_of_nil|]. by split. }
  destruct (get_domains b (resolve_variables self v)) as [ds|e].
  2:{ split; [by intros ? ? [?|?%elem_of_nil]%elem_of_cons|]. by split. }
  pose proof (value_domains_registered (_parameter_builders self)
                (_expectation_configuration_builders self) ds
                (resolve_variables self v) 0 m) as H.
  destruct (value_domains _ _ 0 ds _ m) as [[m' evs] r].
  destruct H as (Hseg & Hhead & Hall). split; [|split].
  - intros i d [?|Hin]%elem_of_cons; [done|].
    destruct (Hseg _ _ Hin) as (k & -> & Hk & Hbefore).
    split; [done|]. intros i' d' Hlt Hd'. right. by apply (Hbefore i' d').
  - intros d0 Hd0. right. by apply Hhead.
  - intros x Hx i d Hd. right. by apply (Hall x Hx i d).
Qed.

(** C6.  In every call of [generate]: an invocation of a parameter builder
    or of an expectation configuration builder comes after the registration
    of its iteration; the [parameters] it is passed has an entry for every
    domain registered so far and for every id the map had before the call;
    the invocation that follows a registration sees an empty container under
    the id of the domain registered; and once the call has ended the
    Rule's parameter map has an entry for every domain registered and for
    every id it had before.  The domains registered are domains that the
    domain builder returned, each under its position in the list returned,
    with every domain before it registered too: the first one whenever
    there is one, and all of them, each with its entry in the final map, when
    the call returns.  Every event is the invocation it names, for the
    domain at its iteration's position in that list. *)
Theorem generate_registers_containers self h v :
  heap_wf h self →
  let '(h', tr, r) := run_generate self h v in
  (∀ tr1 ev tr2 s,
     tr = tr1 ++ ev :: tr2 →
     parameters_of ev = Some s →
     dom (view h (_parameters self)) ⊆ dom s ∧
     (∀ i d, EvRegister i d ∈ tr1 → Domain.id d ∈ dom s) ∧
     (∀ i d, iteration_of (call_of ev) = Some (i, d) →
             EvRegister i d ∈ tr1)) ∧
  (∀ tr1 i d ev tr2 s,
     tr = tr1 ++ EvRegister i d :: ev :: tr2 →
     parameters_of ev = Some s →
     s !! Domain.id d = Some (mkParameterContainer None)) ∧
  dom (view h (_parameters self)) ⊆ dom (view h' (_parameters self)) ∧
  (∀ i d, EvRegister i d ∈ tr →
          Domain.id d ∈ dom (view h' (_parameters self))) ∧
  (∀ d0, head (discovered self v) = Some d0 → EvRegister 0 d0 ∈ tr) ∧
  (∀ i d, EvRegister i d ∈ tr →
     discovered self v !! i = Some d ∧
     ∀ i' d', (i' < i)%nat → discovered self v !! i' = Some d' →
              EvRegister i' d' ∈ tr) ∧
  (∀ cfgs, r = Return cfgs →
     ∀ i d, discovered self v !! i = Some d →
       EvRegister i d ∈ tr ∧
       Domain.id d ∈ dom (view h' (_parameters self))) ∧
  Forall (records_invocation self v) tr.
Proof.
  intros Hwf. by_refinement self h v Hwf.
  pose proof (value_generate_registers_first self v
                (view h (_parameters self))) as Hfirst.
  pose proof (value_generate_registered self v
                (view h (_parameters self))) as Hreg.
  pose proof (value_generate_records self v
                (view h (_parameters self))) as Hrec.
  rewrite Hval in Hfirst, Hreg, Hrec. simpl in Hfirst, Hrec.
  destruct Hreg as (Hseg & Hhead & Hall).
  split; [|split; [|split; [|split; [|split; [|split; [|split]]]]]].
  - intros tr1 ev tr2 s Heq Hs. rewrite (Hsees _ _ _ _ Heq Hs).
    split; [apply replay_dom|]. split.
    + intros i d Hin. by eapply replay_written_dom.
    + intros i d Hit. destruct (Hfirst _ _ _ _ _ Heq Hit) as [->|Hin]; done.
  - intros tr1 i d ev tr2 s Heq Hs.
    rewrite (Hsees (tr1 ++ [EvRegister i d]) ev tr2 s); [|by rewrite <- app_assoc|done].
    rewrite replay_app. apply lookup_insert_eq.
  - rewrite Hm. apply replay_dom.
  - intros i d Hin. rewrite Hm. by eapply replay_written_dom.
  - exact Hhead.
  - exact Hseg.
  - intros cfgs Hr i d Hd. pose proof (Hall _ Hr i d Hd) as Hin.
    split; [done|]. rewrite Hm. by eapply replay_written_dom.
  - exact Hrec.
Qed.

(** ** The copy handed out by [parameters] *)

(** Once [parameters] has returned, the Rule's dictionary and containers
    are out of reach of the holder of the copy. *)
Lemma run_parameters_isolated h self dict :
  owns h self dict →
  let '(h1, r) := run_parameters self h in
  isolated self h1 dict (handles_of h1 r, h1).
Proof.
  intros Ho.
  destruct (run_parameters_spec h self dict Ho)
    as (h1 & r & -> & _ & Ho1 & _ & Hr & y & Hdicts & Hy).
  split; [done|]. split; [done|]. split.
  - simpl. intros Hin%elem_of_singleton. subst r.
    apply Hr, elem_of_dom. destruct Ho as [-> _]. eauto.
  - intros k x Hk. unfold handles_of. simpl.
    rewrite Hdicts, lookup_total_insert_eq.
    intros (k' & Hk')%elem_of_map_img.
    destruct (Hy _ _ Hk') as [_ Hfresh]. apply Hfresh.
    destruct Ho as [_ Hlive]. eauto.
Qed.

Lemma mutate_isolated self h0 dict s mu s' :
  isolated self h0 dict s →
  mutate s mu = Some s' →
  isolated self h0 dict s'.
Proof.
  destruct s as [K h]. intros ([Hd Hlive] & Hsame & Hp & Hout) Hmu.
  destruct mu as [y items|l c|c|items]; simpl in Hmu.
  - case_decide as Hok; [|done]. destruct Hok as [Hy _]. simplify_eq.
    split; [|done]. split; [|done]. simpl.
    rewrite lookup_insert_ne; [done|]. by intros ->.
  - case_decide as Hl; [|done]. simplify_eq.
    assert (∀ k x, dict !! k = Some x → x ≠ l) as Hne.
    { intros k x Hk ->. by eapply Hout. }
    split; [split; [done|]|split; [|done]]; simpl.
    + intros k x Hk. rewrite dom_insert. apply elem_of_union_r. eauto.
    + intros k x Hk. rewrite lookup_insert_ne; [eauto|].
      intros <-. by eapply Hne.
  - simplify_eq.
    pose proof (is_fresh (dom (containers h))) as Hl.
    set (l := fresh (dom (containers h))) in *.
    assert (∀ k x, dict !! k = Some x → x ≠ l) as Hne.
    { intros k x Hk ->. apply Hl. eauto. }
    split; [split; [done|]|split; [|split; [done|]]]; simpl.
    + intros k x Hk. rewrite dom_insert. apply elem_of_union_r. eauto.
    + intros k x Hk. rewrite lookup_insert_ne; [eauto|].
      intros <-. by eapply Hne.
    + intros k x Hk [Hin%elem_of_singleton|Hin]%elem_of_union.
      * by eapply Hne.
      * by eapply Hout.
  - case_decide as Hok; [|done]. simplify_eq.
    pose proof (is_fresh (dom (dicts h))) as Hy.
    set (y := fresh (dom (dicts h))) in *.
    assert (y ≠ _parameters self) as Hne.
    { intros Heq. apply Hy. rewrite Heq. apply elem_of_dom. eauto. }
    split; [split; [|done]|split; [done|split; [|done]]]; simpl.
    + by rewrite lookup_insert_ne.
    + intros [Hin%elem_of_singleton|Hin]%elem_of_union; [done|].
      by apply Hp.
Qed.

Lemma mutations_isolated self h0 dict mus :
  ∀ s s',
    isolated self h0 dict s →
    mutations s mus = Some s' →
    isolated self h0 dict s'.
Proof.
  induction mus as [|mu mus IH]; intros s s' Hs Hmus; simpl in Hmus.
  - by simplify_eq.
  - destruct (mutate s mu) as [s1|] eqn:Hmu; [|done].
    eapply IH; [|done]. by eapply mutate_isolated.
Qed.

Lemma isolated_view self h0 dict K h :
  owns h0 self dict →
  isolated self h0 dict (K, h) →
  owns h self dict ∧
  view h (_parameters self) = view h0 (_parameters self).
Proof.
  intros Ho0 (Ho & Hsame & _). split; [done|].
  rewrite (view_owns _ _ _ Ho), (view_owns _ _ _ Ho0).
  apply map_fmap_ext. intros k x Hk.
  by rewrite !lookup_total_alt, (Hsame _ _ Hk).
Qed.

(** C1.  [parameters] returns a structure with the value of the Rule's
    parameter map, and leaves that map as it is.  Whatever the caller then
    does with what it holds (rewriting the returned dictionary, writing to
    the containers in it, allocating objects of its own), the Rule's map
    keeps its value, and a later read of [parameters] gives it again. *)
Theorem parameters_is_independent_copy self h :
  heap_wf h self →
  let '(h1, r) := run_parameters self h in
  view h1 r = view h (_parameters self) ∧
  view h1 (_parameters self) = view h (_parameters self) ∧
  ∀ mus K h2,
    mutations (handles_of h1 r, h1) mus = Some (K, h2) →
    view h2 (_parameters self) = view h (_parameters self) ∧
    (let '(h3, r') := run_parameters self h2 in
     view h3 r' = view h (_parameters self)).
Proof.
  intros [dict Ho]%heap_wf_owns.
  pose proof (run_parameters_isolated h self dict Ho) as Hiso.
  destruct (run_parameters_spec h self dict Ho)
    as (h1 & r & Hrun & Hview & Ho1 & Hsub & _).
  rewrite Hrun in Hiso |- *.
  pose proof (view_frame h h1 self dict Ho (proj1 Ho1) Hsub) as Hview1.
  split; [done|]. split; [done|].
  intros mus K h2 Hmus.
  pose proof (mutations_isolated self h1 dict mus _ _ Hiso Hmus) as Hiso2.
  destruct (isolated_view self h1 dict K h2 Ho1 Hiso2) as [Ho2 Hview2].
  split; [by rewrite Hview2|].
  destruct (run_parameters_spec h2 self dict Ho2)
    as (h3 & r' & -> & Hview3 & _).
  by rewrite Hview3, Hview2.
Qed.

(** ** The order of the invocations *)

Lemma filter_all {A} (P : A → Prop) `{∀ x, Decision (P x)} (l : list A) :
  Forall P l → filter P l = l.
Proof.
  induction 1 as [|x l Hx _ IH]; [done|].
  by rewrite filter_cons_True, IH.
Qed.

Lemma filter_none {A} (P : A → Prop) `{∀ x, Decision (P x)} (l : list A) :
  Forall (λ x, ¬ P x) l → filter P l = [].
Proof.
  induction 1 as [|x l Hx _ IH]; [done|].
  by rewrite filter_cons_False, IH.
Qed.

Lemma is_build_parameters_iteration i (c : call) :
  is_build_parameters i c = true →
  ∃ d, iteration_of c = Some (i, d).
Proof.
  destruct c as [|i' d|i' p d|i' j d]; simpl; try done.
  intros ->%bool_decide_eq_true. eauto.
Qed.

Lemma is_build_parameters_other i i' d (c : call) :
  iteration_of c = Some (i', d) →
  i ≠ i' →
  is_build_parameters i c = false.
Proof.
  intros Hit Hne. destruct (is_build_parameters i c) eqn:Hbp; [|done].
  destruct (is_build_parameters_iteration _ _ Hbp) as [d' Hit'].
  congruence.
Qed.

(** The parameter builders of an iteration are invoked in the order of
    their list, all of them when the loop returns. *)
Lemma value_parameter_builders_calls i bs d v :
  ∀ p m,
    let '(_, evs, r) := value_parameter_builders i p bs d v m in
    ∃ n,
      call_of <$> evs = (λ q, CBuildParameters i q d) <$> seq p n ∧
      (∀ x, r = Return x → n = length bs).
Proof.
  induction bs as [|b bs IH]; intros p m; simpl.
  - by exists 0.
  - destruct (build_parameters b (m !!! Domain.id d) d v m) as [c [e|]];
      simpl.
    + by exists 1.
    + specialize (IH (S p) (<[Domain.id d := c]> m)).
      destruct (value_parameter_builders i (S p) bs d v _) as [[m2 evs] r].
      destruct IH as (n & Hcalls & Hn). exists (S n). simpl.
      split; [f_equal; exact Hcalls|]. intros x Hx. by rewrite (Hn x Hx).
Qed.

Lemma value_expectation_configuration_builders_calls i bs d v m :
  ∀ j,
    Forall (λ ev, ∃ j', call_of ev = CBuildExpectationConfiguration i j' d)
      (value_expectation_configuration_builders i j bs d v m).1.
Proof.
  induction bs as [|b bs IH]; intros j; simpl; [done|].
  destruct (build_expectation_configuration b d v m) as [c|e].
  - specialize (IH (S j)).
    destruct (value_expectation_configuration_builders i (S j) bs d v m)
      as [evs r]. constructor; [by eexists|done].
  - repeat constructor. by eexists.
Qed.

Lemma value_domain_order pbs ecbs i d v m :
  parameters_before_configurations pbs (value_domain pbs ecbs i d v m).1.2.
Proof.
  unfold value_domain.
  set (m1 := <[Domain.id d := mkParameterContainer None]> m).
  destruct pbs as [pbs|].
  2:{ intros l1 l2 i' j d' v0 s out Heq. destruct l1 as [|? [|]]; by simplify_eq/=. }
  pose proof (value_parameter_builders_calls i pbs d v 0 m1) as H1.
  destruct (value_parameter_builders i 0 pbs d v m1) as [[m2 evs1] r1].
  destruct H1 as (n & Hcalls & Hn).
  assert (Forall (λ ev, is_build_parameters i (call_of ev)) evs1) as Hall.
  { apply Forall_forall. intros ev Hev.
    apply (list_elem_of_fmap_2 call_of) in Hev. rewrite Hcalls in Hev.
    apply list_elem_of_fmap in Hev as (q & -> & _). simpl.
    by apply bool_decide_pack. }
  assert (∀ l1 l2 i' j d' v0 s out,
            EvRegister i d :: evs1 ≠
            l1 ++ EvBuildExpectationConfiguration i' j d' v0 s out :: l2)
    as Hnot.
  { intros l1 l2 i' j d' v0 s out Heq.
    destruct l1 as [|ev0 l1]; simpl in Heq; [done|].
    injection Heq as _ ->.
    apply Forall_app in Hall as [_ Hall].
    by apply Forall_cons in Hall as [Hev _]. }
  destruct r1 as [[]|e]; [|intros l1 l2 i' j d' v0 s out Heq; by destruct (Hnot _ _ _ _ _ _ _ _ Heq)].
  destruct ecbs as [ecbs|]; [|intros l1 l2 i' j d' v0 s out Heq; by destruct (Hnot _ _ _ _ _ _ _ _ Heq)].
  pose proof (value_expectation_configuration_builders_calls i ecbs d v m2 0)
    as H2.
  destruct (value_expectation_configuration_builders i 0 ecbs d v m2)
    as [evs2 r2]. simpl in *.
  intros l1 l2 i' j d' v0 s out Heq.
  change (EvRegister i d :: evs1 ++ evs2)
    with ((EvRegister i d :: evs1) ++ evs2) in Heq.
  destruct (app_cons_eq_app _ _ _ _ _ (eq_sym Heq))
    as [[a2 [Ha _]]|[b1 [-> Hb]]].
  { by destruct (Hnot _ _ _ _ _ _ _ _ Ha). }
  rewrite Hb in H2. apply Forall_app in H2 as [Hb1 Hrest].
  apply Forall_cons in Hrest as [[j' Hj'] Hl2]. simpl in Hj'.
  injection Hj' as <- _ <-.
  exists pbs. split; [done|]. split.
  - rewrite filter_app, fmap_app.
    rewrite (filter_none _ b1).
    2:{ eapply Forall_impl; [exact Hb1|]. by intros ev [j'' ->] ?. }
    rewrite app_nil_r, filter_cons_False by (by intros ?).
    rewrite (filter_all _ evs1 Hall), Hcalls. by rewrite (Hn _ eq_refl).
  - eapply Forall_impl; [exact Hl2|]. by intros ev [j'' ->].
Qed.

Lemma parameters_before_configurations_app pbs i d
    (evs1 evs2 : list (event Any)) :
  parameters_before_configurations pbs evs1 →
  parameters_before_configurations pbs evs2 →
  Forall (λ ev, iteration_of (call_of ev) = Some (i, d)) evs1 →
  Forall (λ ev, ∃ i' d', iteration_of (call_of ev) = Some (i', d') ∧
                         (S i ≤ i')%nat) evs2 →
  parameters_before_configurations pbs (evs1 ++ evs2).
Proof.
  intros H1 H2 Hi1 Hi2 l1 l2 i' j d' v0 s out Heq.
  destruct (app_cons_eq_app _ _ _ _ _ (eq_sym Heq))
    as [[a2 [Ha ->]]|[b1 [-> Hb]]].
  - destruct (H1 _ _ _ _ _ _ _ _ Ha) as (bs & Hbs & Hfilter & Hafter).
    exists bs. split; [done|]. split; [done|].
    apply Forall_app. split; [done|].
    rewrite Ha in Hi1. apply Forall_app in Hi1 as [_ Hi1].
    apply Forall_cons in Hi1 as [Hit _]. simpl in Hit. injection Hit as -> _.
    eapply Forall_impl; [exact Hi2|]. intros ev (i'' & d'' & Hit & Hle).
    eapply is_build_parameters_other; [done|lia].
  - destruct (H2 _ _ _ _ _ _ _ _ Hb) as (bs & Hbs & Hfilter & Hafter).
    exists bs. split; [done|]. split; [|done].
    rewrite Hb in Hi2. apply Forall_app in Hi2 as [_ Hi2].
    apply Forall_cons in Hi2 as [(i'' & d'' & Hit & Hle) _].
    simpl in Hit. injection Hit as <- _.
    rewrite filter_app, (filter_none _ evs1); [exact Hfilter|].
    eapply Forall_impl; [exact Hi1|]. intros ev Hev.
    rewrite (is_build_parameters_other i' i d); [by intros ?|done|lia].
Qed.

Lemma value_domains_order pbs ecbs ds v :
  ∀ i m,
    parameters_before_configurations pbs
      (value_domains pbs ecbs i ds v m).1.2.
Proof.
  induction ds as [|d ds IH]; intros i m; simpl.
  - intros l1 l2 i' j d' v0 s out Heq. by destruct l1.
  - pose proof (value_domain_order pbs ecbs i d v m) as H1.
    pose proof (value_domain_trace pbs ecbs i d v m) as Ht1.
    destruct (value_domain pbs ecbs i d v m) as [[m1 evs1] r1].
    destruct Ht1 as (_ & _ & _ & _ & Hi1).
    destruct r1 as [block|e]; [|done].
    specialize (IH (S i) m1).
    pose proof (value_domains_trace pbs ecbs ds v (S i) m1) as Ht2.
    destruct (value_domains pbs ecbs (S i) ds v m1) as [[m2 evs2] r2].
    destruct Ht2 as (_ & _ & _ & _ & Hi2).
    by eapply parameters_before_configurations_app.
Qed.

Lemma value_generate_order self v m :
  parameters_before_configurations (_parameter_builders self)
    (value_generate self v m).1.2.
Proof.
  unfold value_generate.
  destruct (_domain_builder self) as [b|].
  2:{ intros l1 l2 ? ? ? ? ? ? Hl. by destruct l1. }
  destruct (get_domains b (resolve_variables self v)) as [ds|e].
  2:{ intros l1 l2 ? ? ? ? ? ? Hl. destruct l1 as [|? [|]]; by simplify_eq/=. }
  pose proof (value_domains_order (_parameter_builders self)
                (_expectation_configuration_builders self) ds
                (resolve_variables self v) 0 m) as Hds.
  destruct (value_domains _ _ 0 ds _ m) as [[m' evs] r'].
  simpl in *. intros l1 l2 i' j' d' v' s' out' Hl.
  destruct l1 as [|ev0 l1]; simpl in Hl; [done|].
  injection Hl as <- Hl.
  destruct (Hds _ _ _ _ _ _ _ _ Hl) as (bs & Hbs & Hfilter & Hafter).
  exists bs. split; [done|]. split; [|done].
  by rewrite filter_cons_False by (by intros ?).
Qed.

(** C5.  In every call of [generate], every event is the invocation it
    names: the event numbered [p] of a parameter builder in iteration [i] is
    the invocation of the [p]-th builder of the Rule's list for the [i]-th
    domain returned by the domain builder, and records what that builder
    does.  And when an expectation configuration builder is invoked in an
    iteration of the loop over domains, the events of parameter builders of
    that iteration made so far are numbered from the first position of the
    Rule's list to the last, once each and in this order, every invocation
    made so far has returned, and no parameter builder is invoked in that
    iteration afterwards. *)
Theorem generate_parameters_before_configurations self h v :
  heap_wf h self →
  let '(_, tr, _) := run_generate self h v in
  Forall (records_invocation self v) tr ∧
  ∀ tr1 tr2 i j d v0 s out,
    tr = tr1 ++ EvBuildExpectationConfiguration i j d v0 s out :: tr2 →
    ∃ pbs,
      _parameter_builders self = Some pbs ∧
      call_of <$> filter (λ ev, is_build_parameters i (call_of ev)) tr1 =
        (λ p, CBuildParameters i p d) <$> seq 0 (length pbs) ∧
      Forall (λ ev, raised ev = None) tr1 ∧
      Forall (λ ev, is_build_parameters i (call_of ev) = false) tr2.
Proof.
  intros Hwf. by_refinement self h v Hwf.
  pose proof (value_generate_order self v (view h (_parameters self)))
    as Horder.
  pose proof (value_generate_records self v (view h (_parameters self)))
    as Hrec.
  rewrite Hval in Horder, Hrec. simpl in Horder, Hrec.
  split; [exact Hrec|].
  intros tr1 tr2 i j d v0 s out Heq.
  destruct (Horder _ _ _ _ _ _ _ _ Heq) as (pbs & Hpbs & Hfilter & Hafter).
  exists pbs. split; [done|]. split; [done|]. split; [|done].
  rewrite Heq in Hraise. by eapply raise_ends_before.
Qed.

(** ** The list returned *)

Lemma length_concat_uniform {A} (n : nat) (blocks : list (list A)) :
  Forall (λ block, length block = n) blocks →
  length (concat blocks) = length blocks * n.
Proof.
  induction 1 as [|block blocks Hn _ IH]; [done|].
  simpl. rewrite length_app, IH, Hn. lia.
Qed.

Lemma lookup_concat_uniform {A} (n : nat) (blocks : list (list A)) :
  Forall (λ block, length block = n) blocks →
  ∀ k j block c,
    blocks !! k = Some block →
    block !! j = Some c →
    concat blocks !! (k * n + j) = Some c.
Proof.
  induction 1 as [|block0 blocks Hn _ IH]; intros k j block c Hk Hj; [done|].
  destruct k as [|k]; simpl in *.
  - injection Hk as ->. rewrite lookup_app_l; [done|]. by eapply lookup_lt_Some.
  - rewrite lookup_app_r by lia.
    replace (n + k * n + j - length block0) with (k * n + j) by lia.
    by eapply IH.
Qed.

(** The configurations of one domain: one per builder, in the order of the
    list, each the value returned by the invocation recorded in the
    trace. *)
Lemma value_expectation_configuration_builders_block i bs d v m :
  ∀ j0 evs block,
    value_expectation_configuration_builders i j0 bs d v m =
      (evs, Return block) →
    length block = length bs ∧
    ∀ j b, bs !! j = Some b →
      ∃ c, block !! j = Some c ∧
           build_expectation_configuration b d v m = Return c ∧
           EvBuildExpectationConfiguration i (j0 + j) d v m (Return c) ∈ evs.
Proof.
  induction bs as [|b0 bs IH]; intros j0 evs block Hrun; simpl in Hrun.
  - by simplify_eq.
  - destruct (build_expectation_configuration b0 d v m) as [c0|e] eqn:Hout;
      [|done].
    destruct (value_expectation_configuration_builders i (S j0) bs d v m)
      as [evs' [cs|e]] eqn:Hrest; [|done].
    simplify_eq. destruct (IH _ _ _ Hrest) as [Hlen Hblock].
    split; [simpl; by rewrite Hlen|].
    intros [|j] b Hb; simpl in Hb.
    + simplify_eq. exists c0. rewrite Nat.add_0_r, <- Hout.
      split; [done|]. split; [done|]. by left.
    + destruct (Hblock _ _ Hb) as (c & Hc & Hbuild & Hev).
      exists c. split; [done|]. split; [done|].
      right. by replace (j0 + S j) with (S j0 + j) by lia.
Qed.

Lemma value_domain_block pbs ecbs i d v m m' evs block :
  value_domain pbs ecbs i d v m = (m', evs, Return block) →
  ∃ bs,
    ecbs = Some bs ∧
    length block = length bs ∧
    ∀ j b, bs !! j = Some b →
      ∃ c, block !! j = Some c ∧
           build_expectation_configuration b d v m' = Return c ∧
           EvBuildExpectationConfiguration i j d v m' (Return c) ∈ evs.
Proof.
  unfold value_domain. destruct pbs as [pbs|]; [|done].
  destruct (value_parameter_builders i 0 pbs d v _) as [[m2 evs1] [[]|e]];
    [|done].
  destruct ecbs as [ecbs|]; [|done].
  destruct (value_expectation_configuration_builders i 0 ecbs d v m2)
    as [evs2 r2] eqn:Hecbs.
  intros ?; simplify_eq.
  destruct (value_expectation_configuration_builders_block _ _ _ _ _ _ _ _
              Hecbs) as [Hlen Hblock].
  exists ecbs. split; [done|]. split; [done|].
  intros j b Hb. destruct (Hblock _ _ Hb) as (c & Hc & Hbuild & Hev).
  exists c. split; [done|]. split; [done|].
  right. apply elem_of_app. by right.
Qed.

Lemma value_domains_blocks pbs ecbs ds v :
  ∀ i0 m m' evs cfgs,
    value_domains pbs ecbs i0 ds v m = (m', evs, Return cfgs) →
    ∃ blocks,
      cfgs = concat blocks ∧
      length blocks = length ds ∧
      Forall (λ block, length block = length (default [] ecbs)) blocks ∧
      ∀ k d j b,
        ds !! k = Some d →
        default [] ecbs !! j = Some b →
        ∃ block snapshot c,
          blocks !! k = Some block ∧
          block !! j = Some c ∧
          build_expectation_configuration b d v snapshot = Return c ∧
          EvBuildExpectationConfiguration (i0 + k) j d v snapshot (Return c)
            ∈ evs.
Proof.
  induction ds as [|d0 ds IH]; intros i0 m m' evs cfgs Hrun; simpl in Hrun.
  - simplify_eq. by exists [].
  - destruct (value_domain pbs ecbs i0 d0 v m) as [[m1 evs1] [block0|e]]
      eqn:Hdomain; [|done].
    destruct (value_domains pbs ecbs (S i0) ds v m1) as [[m2 evs2] [cs|e]]
      eqn:Hrest; [|done].
    simplify_eq.
    destruct (value_domain_block _ _ _ _ _ _ _ _ _ Hdomain)
      as (bs & -> & Hlen0 & Hblock0).
    destruct (IH _ _ _ _ _ Hrest) as (blocks & -> & Hlen & Hall & Hblocks).
    exists (block0 :: blocks). split; [done|]. split; [simpl; by rewrite Hlen|].
    split; [by constructor|].
    intros [|k] d j b Hd Hb; simpl in Hd.
    + simplify_eq. destruct (Hblock0 _ _ Hb) as (c & Hc & Hbuild & Hev).
      exists block0, m1, c. rewrite Nat.add_0_r.
      split; [done|]. split; [done|]. split; [done|].
      apply elem_of_app. by left.
    + destruct (Hblocks _ _ _ _ Hd Hb)
        as (block & snapshot & c & Hk & Hc & Hbuild & Hev).
      exists block, snapshot, c.
      split; [done|]. split; [done|]. split; [done|].
      apply elem_of_app. right.
      by replace (i0 + S k) with (S i0 + k) by lia.
Qed.

(** C2.  When [generate] returns, the list returned is the concatenation of
    one block per domain, in the order in which the domain builder returned
    the domains; the block of a domain holds one configuration per
    expectation configuration builder, in the order of the Rule's list, each
    being what that builder returned when it was invoked for that domain.
    So the configuration of the [j]-th builder for the [k]-th domain is at
    position [k * n + j], where [n] is the number of builders, and the list
    has as many elements as there are domains times [n]. *)
Theorem generate_returns_configurations_in_order self h v :
  heap_wf h self →
  let '(_, tr, r) := run_generate self h v in
  ∀ cfgs, r = Return cfgs →
    let variables := resolve_variables self v in
    let ecbs := default [] (_expectation_configuration_builders self) in
    ∃ b ds blocks,
      _domain_builder self = Some b ∧
      get_domains b variables = Return ds ∧
      cfgs = concat blocks ∧
      length blocks = length ds ∧
      Forall (λ block, length block = length ecbs) blocks ∧
      length cfgs = length ds * length ecbs ∧
      ∀ k d j eb,
        ds !! k = Some d →
        ecbs !! j = Some eb →
        ∃ block snapshot c,
          blocks !! k = Some block ∧
          block !! j = Some c ∧
          cfgs !! (k * length ecbs + j) = Some c ∧
          build_expectation_configuration eb d variables snapshot =
            Return c ∧
          EvBuildExpectationConfiguration k j d variables snapshot (Return c)
            ∈ tr.
Proof.
  intros Hwf. by_refinement self h v Hwf. intros cfgs -> variables ecbs.
  unfold value_generate in Hval. fold variables in Hval.
  destruct (_domain_builder self) as [b|]; [|done].
  destruct (get_domains b variables) as [ds|e] eqn:Hds; [|done].
  destruct (value_domains _ _ 0 ds variables _) as [[m' evs] r'] eqn:Hloop.
  simplify_eq.
  destruct (value_domains_blocks _ _ _ _ _ _ _ _ _ Hloop)
    as (blocks & -> & Hlen & Hall & Hblocks).
  exists b, ds, blocks. split; [done|]. split; [done|]. split; [done|].
  split; [done|]. split; [done|].
  split; [by rewrite (length_concat_uniform _ _ Hall), Hlen|].
  intros k d j eb Hd Heb.
  destruct (Hblocks _ _ _ _ Hd Heb)
    as (block & snapshot & c & Hk & Hc & Hbuild & Hev).
  exists block, snapshot, c. split; [done|]. split; [done|].
  split; [by eapply lookup_concat_uniform|]. split; [done|]. by right.
Qed.

(** ** The constructor *)

(** X1.  [Rule.__init__] stores its arguments and gives the Rule a new,
    empty parameter map: the heap it leaves is well formed for the new Rule,
    the new dictionary is at an address not in use before, and every Rule
    for which the heap was well formed keeps a well-formed heap and the
    value of its parameter map. *)
Theorem Rule_init_fresh h (rule_based_profiler : RuleBasedProfiler Any)
    (name : string) (domain_builder : option (DomainBuilder Any))
    (parameter_builders : option (list (ParameterBuilder Any)))
    (expectation_configuration_builders :
       option (list (ExpectationConfigurationBuilder Any))) :
  let '(h', self) :=
    Rule_init h rule_based_profiler name domain_builder parameter_builders
      expectation_configuration_builders in
  heap_wf h' self ∧
  view h' (_parameters self) = ∅ ∧
  (_parameters self ∉ dom (dicts h)) ∧
  _domain_builder self = domain_builder ∧
  _parameter_builders self = parameter_builders ∧
  _expectation_configuration_builders self =
    expectation_configuration_builders ∧
  ∀ other, heap_wf h other →
    _parameters other ≠ _parameters self ∧
    heap_wf h' other ∧
    view h' (_parameters other) = view h (_parameters other).
Proof.
  unfold Rule_init. simpl.
  pose proof (is_fresh (dom (dicts h))) as Hnew.
  set (l := fresh (dom (dicts h))) in *.
  split; [|split; [|split; [done|split; [done|split; [done|split; [done|]]]]]].
  - apply heap_wf_owns. exists ∅. split; simpl.
    + by rewrite lookup_insert_eq.
    + intros k x. by rewrite lookup_empty.
  - unfold view. simpl. by rewrite lookup_total_insert_eq, fmap_empty.
  - intros other [dict [Hd Hlive]]%heap_wf_owns.
    assert (_parameters other ≠ l) as Hne.
    { intros Heq. apply Hnew. rewrite <- Heq. apply elem_of_dom. eauto. }
    split; [done|]. split.
    + apply heap_wf_owns. exists dict. split; simpl; [|done].
      by rewrite lookup_insert_ne.
    + unfold view. simpl. by rewrite lookup_total_insert_ne.
Qed.

(** ** The accessors *)

Lemma dict_comprehension_snoc {A} (key : A → string) (xs : list A) (x : A) :
  dict_comprehension key (xs ++ [x]) =
  <[key x := x]> (dict_comprehension key xs).
Proof. unfold dict_comprehension. by rewrite foldl_app. Qed.

(** The entry of a key is the last element of the list with that key. *)
Lemma dict_comprehension_lookup {A} (key : A → string) (xs : list A) k :
  dict_comprehension key xs !! k = last (filter (λ x, key x = k) xs).
Proof.
  induction xs as [|x xs IH] using rev_ind; [done|].
  rewrite dict_comprehension_snoc, filter_app.
  destruct (decide (key x = k)) as [<-|Hne].
  - rewrite lookup_insert_eq, filter_cons_True, filter_nil by done.
    by rewrite last_snoc.
  - rewrite lookup_insert_ne, filter_cons_False, filter_nil, app_nil_r by done.
    exact IH.
Qed.

Lemma dict_comprehension_dom {A} (key : A → string) (xs : list A) :
  dom (dict_comprehension key xs) = list_to_set (key <$> xs).
Proof.
  induction xs as [|x xs IH] using rev_ind; [apply dom_empty_L|].
  rewrite dict_comprehension_snoc, dom_insert_L, IH, fmap_app, list_to_set_app_L.
  simpl. rewrite union_empty_r_L. apply (comm_L (∪)).
Qed.

Lemma dict_comprehension_size {A} (key : A → string) (xs : list A) :
  (size (dict_comprehension key xs) ≤ length xs)%nat ∧
  (size (dict_comprehension key xs) = length xs ↔ NoDup (key <$> xs)).
Proof.
  induction xs as [|x xs [IHle IHeq]] using rev_ind.
  { split; [done|]. split; [constructor|done]. }
  rewrite dict_comprehension_snoc, length_app, fmap_app. simpl.
  rewrite NoDup_app.
  destruct (dict_comprehension key xs !! key x) as [y|] eqn:Hx.
  - assert (key x ∈ key <$> xs) as Hin.
    { apply (elem_of_list_to_set (C := gset string)).
      rewrite <- dict_comprehension_dom. apply elem_of_dom. eauto. }
    rewrite map_size_insert_Some by eauto. split; [lia|]. split; [lia|].
    intros (_ & Hdisj & _). destruct (Hdisj _ Hin). by left.
  - assert (key x ∉ key <$> xs) as Hnotin.
    { intros Hin. apply (elem_of_list_to_set (C := gset string)) in Hin.
      rewrite <- dict_comprehension_dom in Hin.
      apply elem_of_dom in Hin as [? ?]. congruence. }
    rewrite map_size_insert_None by done. split; [lia|]. split.
    + intros Hsize. split; [apply IHeq; lia|]. split.
      * intros k Hk [->|[]%elem_of_nil]%elem_of_cons. done.
      * apply NoDup_singleton.
    + intros (Hnd & _ & _). apply IHeq in Hnd. lia.
Qed.

(** X2.  The [parameter_builders] accessor gives [None] exactly when the
    Rule has no list of parameter builders.  Otherwise it gives a dictionary
    whose keys are the names of the builders and whose entry under a name is
    the last builder of the list with that name: it has at most as many
    entries as the list has builders, and as many exactly when the names are
    pairwise distinct. *)
Theorem parameter_builders_last_wins
    (builder_name : ParameterBuilder Any → string) self :
  (parameter_builders builder_name self = None ↔
   _parameter_builders self = None) ∧
  ∀ bs, _parameter_builders self = Some bs →
    ∃ dict,
      parameter_builders builder_name self = Some dict ∧
      (∀ k, dict !! k = last (filter (λ b, builder_name b = k) bs)) ∧
      dom dict = list_to_set (builder_name <$> bs) ∧
      (size dict ≤ length bs)%nat ∧
      (size dict = length bs ↔ NoDup (builder_name <$> bs)).
Proof.
  unfold parameter_builders. split.
  - by destruct (_parameter_builders self).
  - intros bs ->. eexists. split; [done|].
    split; [apply dict_comprehension_lookup|].
    split; [apply dict_comprehension_dom|apply dict_comprehension_size].
Qed.

(** X3.  The [expectation_configuration_builders] accessor raises
    [TypeError] when the Rule has no list of expectation configuration
    builders.  Otherwise it returns a dictionary whose keys are the
    expectation types of the builders and whose entry under a type is the
    last builder of the list with that type: it has at most as many entries
    as the list has builders, and as many exactly when the types are
    pairwise distinct. *)
Theorem expectation_configuration_builders_last_wins
    (builder_expectation_type :
       ExpectationConfigurationBuilder Any → string) self :
  (_expectation_configuration_builders self = None →
   expectation_configuration_builders builder_expectation_type self =
     Raise TypeError) ∧
  ∀ bs, _expectation_configuration_builders self = Some bs →
    ∃ dict,
      expectation_configuration_builders builder_expectation_type self =
        Return dict ∧
      (∀ k, dict !! k =
            last (filter (λ b, builder_expectation_type b = k) bs)) ∧
      dom dict = list_to_set (builder_expectation_type <$> bs) ∧
      (size dict ≤ length bs)%nat ∧
      (size dict = length bs ↔ NoDup (builder_expectation_type <$> bs)).
Proof.
  unfold expectation_configuration_builders. split.
  - by intros ->.
  - intros bs ->. eexists. split; [done|].
    split; [apply dict_comprehension_lookup|].
    split; [apply dict_comprehension_dom|apply dict_comprehension_size].
Qed.

(** ** The schedule of a call *)

Lemma value_parameter_builders_schedule i bs d v :
  ∀ p m,
    let '(_, evs, r) := value_parameter_builders i p bs d v m in
    call_of <$> evs `prefix_of`
      ((λ q, CBuildParameters i q d) <$> seq p (length bs)) ∧
    (∀ x, r = Return x →
          call_of <$> evs =
          (λ q, CBuildParameters i q d) <$> seq p (length bs)).
Proof.
  induction bs as [|b bs IH]; intros p m; simpl.
  - by split.
  - destruct (build_parameters b (m !!! Domain.id d) d v m) as [c [e|]];
      simpl.
    + split; [apply prefix_cons, prefix_nil|done].
    + specialize (IH (S p) (<[Domain.id d := c]> m)).
      destruct (value_parameter_builders i (S p) bs d v _) as [[m2 evs] r].
      destruct IH as [Hpre Heq]. split; [by apply prefix_cons|].
      intros x Hx. simpl. f_equal. exact (Heq x Hx).
Qed.

Lemma value_expectation_configuration_builders_schedule i bs d v m :
  ∀ j,
    let '(evs, r) :=
      value_expectation_configuration_builders i j bs d v m in
    call_of <$> evs `prefix_of`
      ((λ q, CBuildExpectationConfiguration i q d) <$> seq j (length bs)) ∧
    (∀ x, r = Return x →
          call_of <$> evs =
          (λ q, CBuildExpectationConfiguration i q d) <$>
            seq j (length bs)).
Proof.
  induction bs as [|b bs IH]; intros j; simpl.
  - by split.
  - destruct (build_expectation_configuration b d v m) as [c|e]; simpl.
    + specialize (IH (S j)).
      destruct (value_expectation_configuration_builders i (S j) bs d v m)
        as [evs r].
      destruct IH as [Hpre Heq]. split; [by apply prefix_cons|].
      intros x Hx. simpl. f_equal. destruct r as [cs|e]; [|done].
      exact (Heq cs eq_refl).
    + split; [apply prefix_cons, prefix_nil|done].
Qed.

Lemma value_domain_schedule pbs ecbs i d v m :
  let '(_, evs, r) := value_domain pbs ecbs i d v m in
  call_of <$> evs `prefix_of`
    iteration_schedule (length (default [] pbs)) (length (default [] ecbs))
      i d ∧
  (∀ x, r = Return x →
        call_of <$> evs =
        iteration_schedule (length (default [] pbs))
          (length (default [] ecbs)) i d).
Proof.
  unfold value_domain, iteration_schedule.
  destruct pbs as [pbs|].
  2:{ split; [apply prefix_cons, prefix_nil|done]. }
  change (default [] (Some pbs)) with pbs.
  pose proof (value_parameter_builders_schedule i pbs d v 0
                (<[Domain.id d := mkParameterContainer None]> m)) as H1.
  destruct (value_parameter_builders i 0 pbs d v _) as [[m2 evs1] r1].
  destruct H1 as [Hpre1 Heq1].
  destruct r1 as [[]|e].
  2:{ split; [|done]. rewrite fmap_cons. by apply prefix_cons, prefix_app_r. }
  specialize (Heq1 _ eq_refl).
  destruct ecbs as [ecbs|].
  2:{ split; [|done]. rewrite fmap_cons, Heq1. change (seq 0 (length (default [] None)))
        with (@nil nat). by rewrite fmap_nil, app_nil_r. }
  change (default [] (Some ecbs)) with ecbs.
  pose proof (value_expectation_configuration_builders_schedule i ecbs d v
                m2 0) as H2.
  destruct (value_expectation_configuration_builders i 0 ecbs d v m2)
    as [evs2 r2].
  destruct H2 as [Hpre2 Heq2]. rewrite fmap_cons, fmap_app, Heq1. split.
  - by apply prefix_cons, prefix_app.
  - intros x Hx. by rewrite (Heq2 x Hx).
Qed.

Lemma value_domains_schedule pbs ecbs ds v :
  ∀ i m,
    let '(_, evs, r) := value_domains pbs ecbs i ds v m in
    call_of <$> evs `prefix_of`
      domains_schedule (length (default [] pbs)) (length (default [] ecbs))
        i ds ∧
    (∀ x, r = Return x →
          call_of <$> evs =
          domains_schedule (length (default [] pbs))
            (length (default [] ecbs)) i ds).
Proof.
  induction ds as [|d ds IH]; intros i m; [by split|].
  cbn [value_domains domains_schedule].
  pose proof (value_domain_schedule pbs ecbs i d v m) as H1.
  destruct (value_domain pbs ecbs i d v m) as [[m1 evs1] r1].
  destruct H1 as [Hpre1 Heq1].
  destruct r1 as [block|e].
  2:{ split; [by apply prefix_app_r|done]. }
  specialize (Heq1 _ eq_refl). specialize (IH (S i) m1).
  destruct (value_domains pbs ecbs (S i) ds v m1) as [[m2 evs2] r2].
  destruct IH as [Hpre2 Heq2]. rewrite fmap_app, Heq1. split.
  - by apply prefix_app.
  - intros x Hx. destruct r2 as [cs|e]; [|done]. by rewrite (Heq2 cs eq_refl).
Qed.

Lemma value_generate_schedule self v m b ds :
  _domain_builder self = Some b →
  get_domains b (resolve_variables self v) = Return ds →
  let '(_, evs, r) := value_generate self v m in
  call_of <$> evs `prefix_of`
    schedule (length (default [] (_parameter_builders self)))
      (length (default [] (_expectation_configuration_builders self))) ds ∧
  (∀ x, r = Return x →
        call_of <$> evs =
        schedule (length (default [] (_parameter_builders self)))
          (length (default [] (_expectation_configuration_builders self)))
          ds).
Proof.
  intros Hb Hds. unfold value_generate. rewrite Hb, Hds.
  pose proof (value_domains_schedule (_parameter_builders self)
                (_expectation_configuration_builders self) ds
                (resolve_variables self v) 0 m) as Hsched.
  destruct (value_domains _ _ 0 ds _ _) as [[m' evs] r'].
  destruct Hsched as [Hpre Heq]. unfold schedule. rewrite fmap_cons.
  split; [by apply prefix_cons|]. intros cfgs ->.
  by rewrite (Heq cfgs eq_refl).
Qed.

(** X4.  In a call of [generate] for which the domain builder returns the
    domains [ds], the invocations are, in this order: the domain builder
    once; then for each domain of [ds], in order, the registration of its
    container, every parameter builder in the order of the Rule's list, and
    every expectation configuration builder in the order of the Rule's
    list.  A call that returns has made exactly these invocations, and a call
    that raises a first stretch of them: no builder is invoked twice for an
    iteration, out of turn, or for a domain that the domain builder did not
    return.  Every event is the invocation it names: the one numbered [p]
    (or [j]) in iteration [i] is the invocation of the builder at that
    position of the Rule's list for the [i]-th domain of [ds], and records
    what that builder does. *)
Theorem generate_follows_schedule self h v :
  heap_wf h self →
  let '(_, tr, r) := run_generate self h v in
  Forall (records_invocation self v) tr ∧
  ∀ b ds,
    _domain_builder self = Some b →
    get_domains b (resolve_variables self v) = Return ds →
    let np := length (default [] (_parameter_builders self)) in
    let nc := length (default [] (_expectation_configuration_builders self)) in
    discovered self v = ds ∧
    call_of <$> tr `prefix_of` schedule np nc ds ∧
    (∀ cfgs, r = Return cfgs → call_of <$> tr = schedule np nc ds).
Proof.
  intros Hwf. by_refinement self h v Hwf.
  pose proof (value_generate_records self v (view h (_parameters self)))
    as Hrec.
  rewrite Hval in Hrec. split; [exact Hrec|].
  intros b ds Hb Hds.
  pose proof (value_generate_schedule self v (view h (_parameters self))
                b ds Hb Hds) as Hsched.
  rewrite Hval in Hsched. split; [|exact Hsched].
  unfold discovered. by rewrite Hb, Hds.
Qed.

(** ** The keys of the parameter map *)

Lemma key_of_written (ev : event Any) :
  key_of (call_of ev) = fst <$> written ev.
Proof. by destruct ev. Qed.

Lemma replay_dom_keys (tr : list (event Any)) m :
  dom (replay tr m) =
  dom m ∪ list_to_set (omap key_of (call_of <$> tr)).
Proof.
  revert m. induction tr as [|ev tr IH]; intros m.
  - simpl. by rewrite union_empty_r_L.
  - rewrite replay_cons, IH. unfold replay_event. simpl.
    rewrite key_of_written.
    destruct (written ev) as [[k c]|]; simpl; [|done].
    rewrite dom_insert_L, (comm_L (∪) {[k]} (dom m)), <- (assoc_L (∪)).
    reflexivity.
Qed.

Lemma iteration_schedule_keys np nc i d k :
  k ∈ omap key_of (iteration_schedule np nc i d) ↔ k = Domain.id d.
Proof.
  rewrite list_elem_of_omap. split.
  - intros (c & Hc & Hk). unfold iteration_schedule in Hc.
    apply elem_of_cons in Hc as [->|Hc]; [by simplify_eq/=|].
    apply elem_of_app in Hc as [Hc|Hc];
      apply list_elem_of_fmap in Hc as (q & -> & _); by simplify_eq/=.
  - intros ->. exists (CRegister i d). split; [by left|done].
Qed.

Lemma domains_schedule_keys np nc ds :
  ∀ i k, k ∈ omap key_of (domains_schedule np nc i ds) ↔
         k ∈ Domain.id <$> ds.
Proof.
  induction ds as [|d ds IH]; intros i k.
  - simpl. by rewrite !elem_of_nil.
  - cbn [domains_schedule].
    rewrite omap_app, elem_of_app, fmap_cons, elem_of_cons.
    by rewrite iteration_schedule_keys, IH.
Qed.

(** The keys of a map after the writes of a trace that follows the
    schedule of the domains [ds]. *)
Lemma replay_schedule_keys (tr : list (event Any)) m np nc ds :
  call_of <$> tr `prefix_of` schedule np nc ds →
  dom (replay tr m) ⊆ dom m ∪ list_to_set (Domain.id <$> ds) ∧
  (call_of <$> tr = schedule np nc ds →
   dom (replay tr m) = dom m ∪ list_to_set (Domain.id <$> ds)).
Proof.
  intros [rest Hpre]. rewrite replay_dom_keys.
  assert (∀ k, k ∈ omap key_of (schedule np nc ds) ↔ k ∈ Domain.id <$> ds)
    as Hkeys.
  { intros k. unfold schedule. simpl. apply domains_schedule_keys. }
  split.
  - intros k [Hk|Hk]%elem_of_union; [by apply elem_of_union_l|].
    apply elem_of_union_r, elem_of_list_to_set, Hkeys.
    apply elem_of_list_to_set in Hk.
    rewrite Hpre, omap_app. apply elem_of_app. by left.
  - intros ->. f_equal. apply set_eq. intros k.
    by rewrite !elem_of_list_to_set.
Qed.

(** X5.  In a call of [generate] for which the domain builder returns the
    domains [ds], the only keys added to the Rule's parameter map are ids of
    domains of [ds], and no key is removed; when the call returns, the keys
    of the map are those it had before and the ids of all the domains of
    [ds]. *)
Theorem generate_parameter_keys self h v :
  heap_wf h self →
  let '(h', _, r) := run_generate self h v in
  ∀ b ds,
    _domain_builder self = Some b →
    get_domains b (resolve_variables self v) = Return ds →
    dom (view h (_parameters self)) ⊆ dom (view h' (_parameters self)) ∧
    dom (view h' (_parameters self)) ⊆
      dom (view h (_parameters self)) ∪ list_to_set (Domain.id <$> ds) ∧
    (∀ cfgs, r = Return cfgs →
       dom (view h' (_parameters self)) =
       dom (view h (_parameters self)) ∪ list_to_set (Domain.id <$> ds)).
Proof.
  intros Hwf. by_refinement self h v Hwf. intros b ds Hb Hds.
  pose proof (value_generate_schedule self v (view h (_parameters self))
                b ds Hb Hds) as Hsched.
  rewrite Hval in Hsched. destruct Hsched as [Hpre Heq].
  destruct (replay_schedule_keys tr (view h (_parameters self)) _ _ ds Hpre)
    as [Hsub Hall].
  rewrite Hm. split; [apply replay_dom|]. split; [done|].
  intros cfgs ->. apply Hall. by eapply Heq.
Qed.

(** X10.  A Rule that has just been constructed and whose first call of
    [generate] returns has, in the structure that [parameters] then hands
    out, exactly one entry per id of the domains that the domain builder
    returned. *)
Theorem new_rule_parameters_after_generate h
    (rule_based_profiler : RuleBasedProfiler Any) (name : string)
    (domain_builder : option (DomainBuilder Any))
    (parameter_builders : option (list (ParameterBuilder Any)))
    (expectation_configuration_builders :
       option (list (ExpectationConfigurationBuilder Any))) v :
  let '(h0, self) :=
    Rule_init h rule_based_profiler name domain_builder parameter_builders
      expectation_configuration_builders in
  let '(h1, _, r) := run_generate self h0 v in
  let '(h2, copy) := run_parameters self h1 in
  ∀ b ds cfgs,
    domain_builder = Some b →
    get_domains b (resolve_variables self v) = Return ds →
    r = Return cfgs →
    dom (view h2 copy) = list_to_set (Domain.id <$> ds).
Proof.
  unfold Rule_init.
  set (self := mkRule _ _ _ _ _ _). set (h0 := mkHeap _ _).
  assert (owns h0 self ∅) as Ho0.
  { split; simpl; [by rewrite lookup_insert_eq|].
    intros k x. by rewrite lookup_empty. }
  assert (heap_wf h0 self) as Hwf0 by (apply heap_wf_owns; by eexists).
  destruct (run_generate_refines self h0 v Hwf0)
    as (h1 & tr & r & -> & Hval & [dict Ho1]%heap_wf_owns).
  pose proof (value_generate_trace self v (view h0 (_parameters self)))
    as Htrace.
  rewrite Hval in Htrace. destruct Htrace as (Hm & _).
  destruct (run_parameters_spec h1 self dict Ho1)
    as (h2 & copy & -> & Hview & _).
  intros b ds cfgs Hb Hds ->.
  pose proof (value_generate_schedule self v (view h0 (_parameters self))
                b ds Hb Hds) as Hsched.
  rewrite Hval in Hsched. destruct Hsched as [Hpre Heq].
  destruct (replay_schedule_keys tr (view h0 (_parameters self)) _ _ ds Hpre)
    as [_ Hall].
  rewrite Hview, Hm, (Hall (Heq _ eq_refl)), (view_owns _ _ _ Ho0), fmap_empty.
  by rewrite dom_empty_L, union_empty_l_L.
Qed.

(** ** What the builders are passed *)

(** X6.  In a call of [generate], the [parameters] passed to an invocation
    is the Rule's parameter map as it was before the call, after every
    registration and every write of a parameter builder made before that
    invocation, in order; so the invocation that follows a parameter
    builder sees, under the id of that builder's domain, the container as
    that builder left it.  And whatever the outcome, the map after the call
    is the map before the call after all these writes. *)
Theorem generate_parameters_are_current self h v :
  heap_wf h self →
  let '(h', tr, _) := run_generate self h v in
  (∀ tr1 ev tr2 s,
     tr = tr1 ++ ev :: tr2 →
     parameters_of ev = Some s →
     s = replay tr1 (view h (_parameters self))) ∧
  (∀ tr1 i p d v0 s out ev tr2 s',
     tr = tr1 ++ EvBuildParameters i p d v0 s out :: ev :: tr2 →
     parameters_of ev = Some s' →
     s' !! Domain.id d = Some out.1) ∧
  view h' (_parameters self) = replay tr (view h (_parameters self)).
Proof.
  intros Hwf. by_refinement self h v Hwf.
  split; [exact Hsees|]. split; [|done].
  intros tr1 i p d v0 s out ev tr2 s' Heq Hs'.
  rewrite (Hsees (tr1 ++ [EvBuildParameters i p d v0 s out]) ev tr2 s');
    [|by rewrite <- app_assoc|done].
  rewrite replay_app. apply lookup_insert_eq.
Qed.

(** ** What the configuration builders see *)

(** When the loop over the parameter builders returns, the container of the
    domain is as the last builder left it. *)
Lemma value_parameter_builders_last i bs d v :
  ∀ p0 m,
    let '(m', evs, r) := value_parameter_builders i p0 bs d v m in
    ∀ x, r = Return x →
      (bs = [] → m' = m) ∧
      ∀ i' p d' v' s' out',
        EvBuildParameters i' p d' v' s' out' ∈ evs →
        S p = p0 + length bs →
        m' !! Domain.id d = Some out'.1.
Proof.
  induction bs as [|b bs IH]; intros p0 m.
  - simpl. intros x _. split; [done|]. by intros ? ? ? ? ? ? ?%elem_of_nil.
  - cbn [value_parameter_builders].
    destruct (build_parameters b (m !!! Domain.id d) d v m) as [c [e|]]
      eqn:Hout; cbn [fst snd]; [done|].
    specialize (IH (S p0) (<[Domain.id d := c]> m)).
    destruct (value_parameter_builders i (S p0) bs d v _) as [[m2 evs] r].
    intros x ->. destruct (IH x eq_refl) as [Hnil Hlast]. split; [done|].
    intros i' p d' v' s' out' [Heq|Hin]%elem_of_cons Hp.
    + injection Heq as -> -> -> -> -> ->. simpl in Hp.
      assert (bs = []) as Hbs by (destruct bs; [done|simpl in Hp; lia]).
      rewrite (Hnil Hbs). apply lookup_insert_eq.
    + eapply Hlast; [done|]. simpl in Hp. lia.
Qed.

Lemma value_domain_configurations_see_final pbs ecbs i d v m :
  configurations_see_final (length (default [] pbs))
    (value_domain pbs ecbs i d v m).1.2.
Proof.
  unfold value_domain.
  set (m1 := <[Domain.id d := mkParameterContainer None]> m).
  destruct pbs as [pbs|].
  2:{ intros i' j d' v' s out [Heq|[]%elem_of_nil]%elem_of_cons. done. }
  change (default [] (Some pbs)) with pbs.
  pose proof (value_parameter_builders_calls i pbs d v 0 m1) as Hcalls.
  pose proof (value_parameter_builders_last i pbs d v 0 m1) as Hlast.
  pose proof (value_parameter_builders_trace i pbs d v 0 m1) as Htrace.
  destruct (value_parameter_builders i 0 pbs d v m1) as [[m2 evs1] r1].
  destruct Hcalls as (n & Hcalls & _).
  destruct Htrace as (_ & _ & _ & _ & Hit1).
  assert (∀ i' j d' v' s out,
            EvBuildExpectationConfiguration i' j d' v' s out ∉
            EvRegister i d :: evs1) as Hnot.
  { intros i' j d' v' s out [Heq|Hin]%elem_of_cons; [done|].
    apply (list_elem_of_fmap_2 call_of) in Hin. rewrite Hcalls in Hin.
    by apply list_elem_of_fmap in Hin as (q & ? & _). }
  destruct r1 as [[]|e];
    [|intros i' j d' v' s out Hin; by destruct (Hnot _ _ _ _ _ _ Hin)].
  destruct (Hlast _ eq_refl) as [Hnil Hlast']. clear Hlast.
  destruct ecbs as [ecbs|];
    [|intros i' j d' v' s out Hin; by destruct (Hnot _ _ _ _ _ _ Hin)].
  pose proof (value_expectation_configuration_builders_trace i ecbs d v m2 0)
    as H2.
  pose proof (value_expectation_configuration_builders_calls i ecbs d v m2 0)
    as Hcalls2.
  destruct (value_expectation_configuration_builders i 0 ecbs d v m2)
    as [evs2 r2].
  destruct H2 as (_ & Hs2 & _ & _ & _ & Hit2). cbn [fst snd] in *.
  assert (∀ i' j d' v' s out,
            EvBuildExpectationConfiguration i' j d' v' s out ∈
            EvRegister i d :: evs1 ++ evs2 →
            s = m2 ∧ d' = d) as Hecb.
  { intros i' j d' v' s out Hin.
    change (EvRegister i d :: evs1 ++ evs2)
      with ((EvRegister i d :: evs1) ++ evs2) in Hin.
    apply elem_of_app in Hin as [Hin|Hin];
      [by destruct (Hnot _ _ _ _ _ _ Hin)|].
    pose proof (proj1 (Forall_forall _ _) Hs2 _ Hin) as Hs.
    pose proof (proj1 (Forall_forall _ _) Hit2 _ Hin) as Hit.
    simpl in Hs, Hit. by simplify_eq. }
  intros i' j d' v' s out Hin. destruct (Hecb _ _ _ _ _ _ Hin) as [-> ->].
  split; [|split].
  - intros j' d'' v'' s' out' Hin'. by destruct (Hecb _ _ _ _ _ _ Hin').
  - intros p d'' v'' s' out' Hin' Hp.
    apply elem_of_cons in Hin' as [?|Hin']; [done|].
    apply elem_of_app in Hin' as [Hin'|Hin'].
    + by eapply Hlast'.
    + pose proof (proj1 (Forall_forall _ _) Hcalls2 _ Hin') as [j' Hj'].
      done.
  - intros Hnp. destruct pbs; [|done]. rewrite (Hnil eq_refl).
    apply lookup_insert_eq.
Qed.

Lemma configurations_see_final_app np i d (evs1 evs2 : list (event Any)) :
  configurations_see_final np evs1 →
  configurations_see_final np evs2 →
  Forall (λ ev, iteration_of (call_of ev) = Some (i, d)) evs1 →
  Forall (λ ev, ∃ i' d', iteration_of (call_of ev) = Some (i', d') ∧
                         (S i ≤ i')%nat) evs2 →
  configurations_see_final np (evs1 ++ evs2).
Proof.
  intros H1 H2 Hi1 Hi2.
  assert (∀ (ev ev' : event Any),
            ev ∈ evs1 → ev' ∈ evs2 →
            ∀ i0 d0 d0',
              iteration_of (call_of ev) = Some (i0, d0) →
              iteration_of (call_of ev') = Some (i0, d0') → False) as Hcross.
  { intros ev ev' Hin1 Hin2 i0 d0 d0' Hit Hit'.
    pose proof (proj1 (Forall_forall _ _) Hi1 _ Hin1) as Ha.
    destruct (proj1 (Forall_forall _ _) Hi2 _ Hin2) as (i' & d' & Hb & Hle).
    rewrite Ha in Hit. rewrite Hb in Hit'. simplify_eq. lia. }
  intros i0 j d0 v s out [Hin|Hin]%elem_of_app.
  - destruct (H1 _ _ _ _ _ _ Hin) as (Hsame & Hlast & Hnone).
    split; [|split; [|done]].
    + intros j' d' v' s' out' [Hin'|Hin']%elem_of_app; [by eapply Hsame|].
      destruct (Hcross _ _ Hin Hin' i0 d0 d' eq_refl eq_refl).
    + intros p d' v' s' out' [Hin'|Hin']%elem_of_app Hp; [by eapply Hlast|].
      destruct (Hcross _ _ Hin Hin' i0 d0 d' eq_refl eq_refl).
  - destruct (H2 _ _ _ _ _ _ Hin) as (Hsame & Hlast & Hnone).
    split; [|split; [|done]].
    + intros j' d' v' s' out' [Hin'|Hin']%elem_of_app; [|by eapply Hsame].
      destruct (Hcross _ _ Hin' Hin i0 d' d0 eq_refl eq_refl).
    + intros p d' v' s' out' [Hin'|Hin']%elem_of_app Hp; [|by eapply Hlast].
      destruct (Hcross _ _ Hin' Hin i0 d' d0 eq_refl eq_refl).
Qed.

Lemma value_domains_configurations_see_final pbs ecbs ds v :
  ∀ i m,
    configurations_see_final (length (default [] pbs))
      (value_domains pbs ecbs i ds v m).1.2.
Proof.
  induction ds as [|d ds IH]; intros i m; simpl.
  - by intros ? ? ? ? ? ? ?%elem_of_nil.
  - pose proof (value_domain_configurations_see_final pbs ecbs i d v m) as H1.
    pose proof (value_domain_trace pbs ecbs i d v m) as Ht1.
    destruct (value_domain pbs ecbs i d v m) as [[m1 evs1] r1].
    destruct Ht1 as (_ & _ & _ & _ & Hi1).
    destruct r1 as [block|e]; [|done].
    specialize (IH (S i) m1).
    pose proof (value_domains_trace pbs ecbs ds v (S i) m1) as Ht2.
    destruct (value_domains pbs ecbs (S i) ds v m1) as [[m2 evs2] r2].
    destruct Ht2 as (_ & _ & _ & _ & Hi2).
    by eapply configurations_see_final_app.
Qed.

(** X7.  In a call of [generate], the expectation configuration builders
    invoked in one iteration of the loop over domains are all passed the
    same [parameters]; in it, the container under the id of the domain is as
    the last parameter builder of the Rule's list left it when it was
    invoked in that iteration, and is empty when the list is empty.  That
    invocation is in the trace: it is the event numbered with the last
    position of the list, and what it records is what the last builder of
    the list does on the container it is handed. *)
Theorem generate_configurations_see_final self h v :
  heap_wf h self →
  let '(_, tr, _) := run_generate self h v in
  ∀ i j d v0 s out,
    EvBuildExpectationConfiguration i j d v0 s out ∈ tr →
    (∀ j' d' v' s' out',
       EvBuildExpectationConfiguration i j' d' v' s' out' ∈ tr → s' = s) ∧
    (∀ p d' v' s' out',
       EvBuildParameters i p d' v' s' out' ∈ tr →
       S p = length (default [] (_parameter_builders self)) →
       s !! Domain.id d = Some out'.1) ∧
    (length (default [] (_parameter_builders self)) = 0 →
     s !! Domain.id d = Some (mkParameterContainer None)) ∧
    (∀ b, last (default [] (_parameter_builders self)) = Some b →
       ∃ s0,
         EvBuildParameters i
           (length (default [] (_parameter_builders self)) - 1) d v0 s0
           (build_parameters b (s0 !!! Domain.id d) d v0 s0) ∈ tr ∧
         s !! Domain.id d =
           Some (build_parameters b (s0 !!! Domain.id d) d v0 s0).1).
Proof.
  intros Hwf. by_refinement self h v Hwf.
  assert (configurations_see_final
            (length (default [] (_parameter_builders self))) tr) as Hfinal.
  { clear Hm Hsees Hraise Hvars. unfold value_generate in Hval.
    destruct (_domain_builder self) as [b|].
    2:{ simplify_eq. by intros ? ? ? ? ? ? ?%elem_of_nil. }
    destruct (get_domains b (resolve_variables self v)) as [ds|e].
    2:{ simplify_eq.
        by intros ? ? ? ? ? ? [?|?%elem_of_nil]%elem_of_cons. }
    pose proof (value_domains_configurations_see_final
                  (_parameter_builders self)
                  (_expectation_configuration_builders self) ds
                  (resolve_variables self v) 0
                  (view h (_parameters self))) as Hds.
    destruct (value_domains _ _ 0 ds _ _) as [[m' evs] r']. simplify_eq.
    simpl in Hds. intros i j d v0 s out [?|Hin]%elem_of_cons; [done|].
    destruct (Hds _ _ _ _ _ _ Hin) as (Hsame & Hlast & Hnone).
    split; [|split; [|done]].
    - intros j' d' v' s' out' [?|Hin']%elem_of_cons; [done|].
      by eapply Hsame.
    - intros p d' v' s' out' [?|Hin']%elem_of_cons Hp; [done|].
      by eapply Hlast. }
  pose proof (value_generate_order self v (view h (_parameters self)))
    as Horder.
  pose proof (value_generate_records self v (view h (_parameters self)))
    as Hrec.
  rewrite Hval in Horder, Hrec. simpl in Horder, Hrec.
  intros i j d v0 s out Hin.
  destruct (Hfinal _ _ _ _ _ _ Hin) as (Hsame & Hlast & Hnone).
  split; [done|]. split; [done|]. split; [done|].
  intros b Hb.
  pose proof (proj1 (Forall_forall _ _) Hrec _ Hin) as Hinv0.
  simpl in Hinv0. destruct Hinv0 as (_ & Hv0 & _).
  apply list_elem_of_split in Hin as (tr1 & tr2 & Heq).
  destruct (Horder _ _ _ _ _ _ _ _ Heq) as (bs & Hbs & Hfilter & _).
  rewrite Hbs in Hb, Hlast |- *.
  change (default [] (Some bs)) with bs in Hb, Hlast |- *.
  rewrite last_lookup in Hb.
  assert (length bs ≠ 0) as Hlen by (by destruct bs).
  assert (CBuildParameters i (length bs - 1) d ∈
          call_of <$> filter (λ ev, is_build_parameters i (call_of ev)) tr1)
    as Hcall.
  { rewrite Hfilter. apply list_elem_of_fmap. exists (length bs - 1).
    split; [done|]. apply elem_of_seq. lia. }
  apply list_elem_of_fmap in Hcall as (ev & Hev & Hin1).
  apply list_elem_of_filter in Hin1 as [_ Hin1].
  assert (ev ∈ tr) as Hin.
  { rewrite Heq. apply elem_of_app. by left. }
  destruct ev as [| |i' p d' v' s0 out0|]; try done.
  simpl in Hev. injection Hev as <- <- <-.
  pose proof (proj1 (Forall_forall _ _) Hrec _ Hin) as Hinv.
  simpl in Hinv. rewrite Hbs in Hinv.
  change (default [] (Some bs)) with bs in Hinv.
  destruct Hinv as (_ & Hv' & b' & Hb' & Hout).
  replace (pred (length bs)) with (length bs - 1) in Hb by lia.
  rewrite Hb in Hb'. injection Hb' as <-.
  subst v' v0. exists s0. rewrite <- Hout. split; [done|].
  eapply Hlast; [done|]. lia.
Qed.

(** ** What [generate] leaves alone *)

Lemma frames_refl h self : frames h h self.
Proof. by split. Qed.

Lemma frames_run_parameters h0 h self dict :
  owns h self dict →
  frames h0 h self →
  frames h0 (run_parameters self h).1 self.
Proof.
  intros Ho [Hcs Hds].
  destruct (run_parameters_spec h self dict Ho)
    as (h1 & r & -> & _ & _ & Hsub & Hr & y & Hdicts & _). simpl.
  split; [by etrans|]. intros q d Hq Hd. rewrite Hdicts.
  rewrite lookup_insert_ne; [by apply Hds|].
  intros <-. apply Hr, elem_of_dom. exists d. by apply Hds.
Qed.

Lemma frames_view h0 h self q (items : gmap string loc) :
  frames h0 h self →
  q ≠ _parameters self →
  dicts h0 !! q = Some items →
  (∀ k l, items !! k = Some l → l ∈ dom (containers h0)) →
  view h q = view h0 q.
Proof.
  intros [Hcs Hds] Hq Hd Hlive. unfold view.
  rewrite (lookup_total_correct _ _ _ Hd).
  rewrite (lookup_total_correct _ _ _ (Hds _ _ Hq Hd)).
  apply map_fmap_ext. intros k l Hk.
  pose proof (Hlive _ _ Hk) as Hl. apply elem_of_dom in Hl as [c Hc].
  rewrite (lookup_total_correct _ _ _ Hc).
  apply lookup_total_correct. by eapply lookup_weaken.
Qed.

Lemma for_parameter_builders_frames self i bs :
  ∀ p l d v h tr dict h0,
    owns h self dict →
    frames h0 h self →
    l ∉ dom (containers h0) →
    frames h0
      (heap_of (for_parameter_builders self i p bs l d v (mkState h tr)).1)
      self.
Proof.
  induction bs as [|b bs IH]; intros p l d v h tr dict h0 Ho Hfr Hl; [done|].
  pose proof (frames_run_parameters h0 h self dict Ho Hfr) as Hfr1.
  destruct (run_parameters_spec h self dict Ho) as
    (h1 & r & Hrun & _ & Ho1 & _).
  rewrite Hrun in Hfr1. simpl in Hfr1.
  simpl. unfold bind at 1, parameters. simpl. rewrite Hrun. simpl.
  unfold bind at 1, call_build_parameters. simpl.
  set (out := build_parameters b _ d v _).
  set (h2 := mkHeap (dicts h1) (<[l := out.1]> (containers h1))).
  assert (owns h2 self dict) as Ho2.
  { destruct Ho1 as [Hd1 Hlive1]. split; [done|]. intros k x Hk. simpl.
    rewrite dom_insert. apply elem_of_union_r. eauto. }
  assert (frames h0 h2 self) as Hfr2.
  { destruct Hfr1 as [Hcs Hds]. split; [|done]. simpl.
    apply insert_subseteq_r; [|done]. by apply not_elem_of_dom. }
  destruct (out.2) as [e|]; [done|]. by eapply IH.
Qed.

Lemma for_expectation_configuration_builders_frames self i bs :
  ∀ j d v h tr dict acc h0,
    owns h self dict →
    frames h0 h self →
    frames h0
      (heap_of (for_expectation_configuration_builders self i j bs d v acc
                  (mkState h tr)).1)
      self.
Proof.
  induction bs as [|b bs IH]; intros j d v h tr dict acc h0 Ho Hfr; [done|].
  pose proof (frames_run_parameters h0 h self dict Ho Hfr) as Hfr1.
  destruct (run_parameters_spec h self dict Ho) as
    (h1 & r & Hrun & _ & Ho1 & _).
  rewrite Hrun in Hfr1. simpl in Hfr1.
  simpl. unfold bind at 1, parameters. simpl. rewrite Hrun. simpl.
  unfold bind at 1, call_build_expectation_configuration. simpl.
  destruct (build_expectation_configuration b d v _) as [c|e]; [|done].
  by eapply IH.
Qed.

Lemma for_domains_frames self ds :
  ∀ i v h tr acc h0,
    heap_wf h self →
    frames h0 h self →
    frames h0 (heap_of (for_domains self i ds v acc (mkState h tr)).1) self.
Proof.
  induction ds as [|d ds IH]; intros i v h tr acc h0 Hwf Hfr; [done|].
  apply heap_wf_owns in Hwf as [dict Ho].
  destruct (register_spec h self dict d Ho) as (Ho2 & Huniq & _).
  pose proof (is_fresh (dom (containers h))) as Hl.
  set (l := fresh (dom (containers h))) in *.
  set (h2 := mkHeap _ _) in *.
  assert (l ∉ dom (containers h0)) as Hl0.
  { intros Hin. apply Hl. eapply subseteq_dom; [exact (proj1 Hfr)|done]. }
  assert (frames h0 h2 self) as Hfr2.
  { destruct Hfr as [Hcs Hds]. split; simpl.
    - apply insert_subseteq_r; [by apply not_elem_of_dom|done].
    - intros q dq Hq Hdq. rewrite lookup_insert_ne by done. by apply Hds. }
  simpl. unfold bind at 1, new_ParameterContainer. simpl. fold l.
  unfold bind at 1, setitem. simpl. fold h2.
  unfold bind at 1, log. simpl.
  destruct (_parameter_builders self) as [pbs|]; simpl; [|done].
  unfold bind at 1, ret at 1.
  pose proof (for_parameter_builders_frames self i pbs 0 l d v h2
                (tr ++ [EvRegister i d]) _ h0 Ho2 Hfr2 Hl0) as Hfr3.
  destruct (for_parameter_builders_refines self i pbs 0 l d v h2
              (tr ++ [EvRegister i d]) _ Ho2 (lookup_insert_eq _ _ _) Huniq)
    as (h3 & evs1 & r1 & Hfor1 & _ & Ho3).
  rewrite Hfor1 in Hfr3. simpl in Hfr3.
  unfold bind at 1. rewrite Hfor1.
  destruct r1 as [[]|e]; [|done].
  destruct (_expectation_configuration_builders self) as [ecbs|]; simpl;
    [|done].
  unfold bind at 1, ret at 1.
  pose proof (for_expectation_configuration_builders_frames self i ecbs 0 d v
                h3 ((tr ++ [EvRegister i d]) ++ evs1) _ acc h0 Ho3 Hfr3)
    as Hfr4.
  destruct (for_expectation_configuration_builders_refines self i ecbs 0 d v
              h3 ((tr ++ [EvRegister i d]) ++ evs1) _ acc Ho3)
    as (h4 & evs2 & r2 & Hfor2 & _ & Ho4 & _).
  rewrite Hfor2 in Hfr4. simpl in Hfr4.
  unfold bind at 1. rewrite Hfor2.
  destruct r2 as [block|e]; simpl; [|done].
  apply IH; [|done]. apply heap_wf_owns. by eexists.
Qed.

Lemma run_generate_frames self h v :
  heap_wf h self →
  frames h (run_generate self h v).1.1 self.
Proof.
  intros Hwf. unfold run_generate, generate.
  destruct (_domain_builder self) as [b|]; simpl; [|apply frames_refl].
  unfold bind, ret, call_get_domains, log; simpl.
  destruct (get_domains b (resolve_variables self v)) as [ds|e]; simpl;
    [|apply frames_refl].
  pose proof (for_domains_frames self ds 0 (resolve_variables self v) h
                [EvGetDomains (resolve_variables self v) (Return ds)] [] h
                Hwf (frames_refl h self)) as Hfr.
  by destruct (for_domains self 0 ds _ [] _) as [σ r].
Qed.

(** X8.  [generate] writes to containers that it has allocated itself and
    to the Rule's own dictionary only: every container that existed before
    the call is as it was, and so is every other dictionary, so that any
    dictionary other than the Rule's own that referred to live containers
    has the value it had before the call. *)
Theorem generate_leaves_other_objects self h v :
  heap_wf h self →
  let '(h', _, _) := run_generate self h v in
  containers h ⊆ containers h' ∧
  (∀ q (items : gmap string loc),
     q ≠ _parameters self →
     dicts h !! q = Some items → dicts h' !! q = Some items) ∧
  (∀ q (items : gmap string loc),
     q ≠ _parameters self →
     dicts h !! q = Some items →
     (∀ k l, items !! k = Some l → l ∈ dom (containers h)) →
     view h' q = view h q).
Proof.
  intros Hwf. pose proof (run_generate_frames self h v Hwf) as Hfr.
  destruct (run_generate self h v) as [[h' tr] r]. simpl in Hfr.
  split; [exact (proj1 Hfr)|]. split; [exact (proj2 Hfr)|].
  intros q d Hq Hd Hlive. by eapply frames_view.
Qed.

(** X9.  A structure handed out by [parameters] keeps its value through a
    later call of [generate] on the same Rule: it still has the value that
    the Rule's parameter map had when it was read, whatever the call writes
    into the map. *)
Theorem parameters_copy_survives_generate self h v :
  heap_wf h self →
  let '(h1, r) := run_parameters self h in
  let '(h2, _, _) := run_generate self h1 v in
  view h2 r = view h (_parameters self).
Proof.
  intros [dict Ho]%heap_wf_owns.
  destruct (run_parameters_spec h self dict Ho)
    as (h1 & r & -> & Hview & Ho1 & _ & Hr & y & Hdicts & Hy).
  assert (heap_wf h1 self) as Hwf1 by (apply heap_wf_owns; by eexists).
  pose proof (run_generate_frames self h1 v Hwf1) as Hfr.
  destruct (run_generate self h1 v) as [[h2 tr] res]. simpl in Hfr.
  rewrite <- Hview. eapply frames_view; [done| | |].
  - intros ->. apply Hr, elem_of_dom. destruct Ho as [-> _]. eauto.
  - by rewrite Hdicts, lookup_insert_eq.
  - intros k l Hk. by destruct (Hy _ _ Hk).
Qed.

End rule_properties.

(** * The concrete rules *)

(** A hypothesis on a concrete heap is settled by evaluation. *)
Ltac by_evaluation := apply (bool_decide_unpack _); vm_compute; exact I.

(** The scenario of the specification: two configurations, for [colA] and
    then for [colB], and [row_count] under both domain ids. *)
Example scenario_configurations :
  (run_generate scenario.2 scenario.1 None).2 =
    Return
      [mkExpectationConfiguration "expect_column_values_to_not_be_null"
         {["column" := PStr "colA"]};
       mkExpectationConfiguration "expect_column_values_to_not_be_null"
         {["column" := PStr "colB"]}].
Proof. vm_compute. reflexivity. Qed.

Example scenario_parameters :
  view scenario_after (_parameters scenario.2) =
    <["colA" := mkParameterContainer (Some {["row_count" := PInt 100]})]>
      (<["colB" := mkParameterContainer (Some {["row_count" := PInt 100]})]>
         ∅).
Proof. vm_compute. reflexivity. Qed.

Example scenario_missing_raises :
  (run_generate scenario_missing.2 scenario_missing.1 None).2 =
    Raise ExpectationConfigurationBuildError.
Proof. vm_compute. reflexivity. Qed.

Example scenario_failing_raises :
  (run_generate scenario_failing.2 scenario_failing.1 None).2 =
    Raise ParameterComputationError.
Proof. vm_compute. reflexivity. Qed.

Example caller_mutations_allowed :
  is_Some (mutations (handles_of scenario_copy.1 scenario_copy.2,
                      scenario_copy.1) caller_mutations).
Proof. vm_compute. eauto. Qed.

Lemma parameters_is_independent_copy_witness :
  heap_wf scenario_after scenario.2 ∧
  let '(h1, r) := run_parameters scenario.2 scenario_after in
  view h1 r = view scenario_after (_parameters scenario.2) ∧
  view h1 (_parameters scenario.2) =
    view scenario_after (_parameters scenario.2) ∧
  ∀ mus K h2,
    mutations (handles_of h1 r, h1) mus = Some (K, h2) →
    view h2 (_parameters scenario.2) =
      view scenario_after (_parameters scenario.2) ∧
    (let '(h3, r') := run_parameters scenario.2 h2 in
     view h3 r' = view scenario_after (_parameters scenario.2)).
Proof.
  split; [by_evaluation|].
  apply (parameters_is_independent_copy scenario.2 scenario_after).
  by_evaluation.
Defined.

Lemma generate_returns_configurations_in_order_witness :
  heap_wf scenario.1 scenario.2 ∧
  let '(_, tr, r) := run_generate scenario.2 scenario.1 None in
  ∀ cfgs, r = Return cfgs →
    let variables := resolve_variables scenario.2 None in
    let ecbs :=
      default [] (_expectation_configuration_builders scenario.2) in
    ∃ b ds blocks,
      _domain_builder scenario.2 = Some b ∧
      get_domains b variables = Return ds ∧
      cfgs = concat blocks ∧
      length blocks = length ds ∧
      Forall (λ block, length block = length ecbs) blocks ∧
      length cfgs = length ds * length ecbs ∧
      ∀ k d j eb,
        ds !! k = Some d →
        ecbs !! j = Some eb →
        ∃ block snapshot c,
          blocks !! k = Some block ∧
          block !! j = Some c ∧
          cfgs !! (k * length ecbs + j) = Some c ∧
          build_expectation_configuration eb d variables snapshot =
            Return c ∧
          EvBuildExpectationConfiguration k j d variables snapshot (Return c)
            ∈ tr.
Proof.
  split; [by_evaluation|].
  apply (generate_returns_configurations_in_order scenario.2 scenario.1 None).
  by_evaluation.
Defined.

Lemma generate_propagates_errors_witness :
  heap_wf scenario_missing.1 scenario_missing.2 ∧
  let '(_, tr, r) :=
    run_generate scenario_missing.2 scenario_missing.1 None in
  ∀ ev e, ev ∈ tr → raised ev = Some e → r = Raise e ∧ last tr = Some ev.
Proof.
  split; [by_evaluation|].
  apply (generate_propagates_errors scenario_missing.2 scenario_missing.1 None).
  by_evaluation.
Defined.

Lemma generate_discovery_failure_witness :
  _domain_builder scenario_unreachable.2 = Some unreachable_backend ∧
  get_domains unreachable_backend
    (resolve_variables scenario_unreachable.2 None) =
    Raise DomainDiscoveryError ∧
  let '(h', tr, r) :=
    run_generate scenario_unreachable.2 scenario_unreachable.1 None in
  r = Raise DomainDiscoveryError ∧
  tr = [EvGetDomains (resolve_variables scenario_unreachable.2 None)
          (Raise DomainDiscoveryError)] ∧
  h' = scenario_unreachable.1.
Proof.
  split; [reflexivity|]. split; [reflexivity|].
  apply (generate_discovery_failure scenario_unreachable.2
           scenario_unreachable.1 None unreachable_backend
           DomainDiscoveryError); reflexivity.
Defined.

Lemma generate_parameters_before_configurations_witness :
  heap_wf scenario_failing.1 scenario_failing.2 ∧
  let '(_, tr, _) :=
    run_generate scenario_failing.2 scenario_failing.1 None in
  Forall (records_invocation scenario_failing.2 None) tr ∧
  ∀ tr1 tr2 i j d v0 s out,
    tr = tr1 ++ EvBuildExpectationConfiguration i j d v0 s out :: tr2 →
    ∃ pbs,
      _parameter_builders scenario_failing.2 = Some pbs ∧
      call_of <$> filter (λ ev, is_build_parameters i (call_of ev)) tr1 =
        (λ p, CBuildParameters i p d) <$> seq 0 (length pbs) ∧
      Forall (λ ev, raised ev = None) tr1 ∧
      Forall (λ ev, is_build_parameters i (call_of ev) = false) tr2.
Proof.
  split; [by_evaluation|].
  apply (generate_parameters_before_configurations scenario_failing.2
           scenario_failing.1 None).
  by_evaluation.
Defined.

Lemma generate_registers_containers_witness :
  heap_wf scenario.1 scenario.2 ∧
  let '(h', tr, r) := run_generate scenario.2 scenario.1 None in
  (∀ tr1 ev tr2 s,
     tr = tr1 ++ ev :: tr2 →
     parameters_of ev = Some s →
     dom (view scenario.1 (_parameters scenario.2)) ⊆ dom s ∧
     (∀ i d, EvRegister i d ∈ tr1 → Domain.id d ∈ dom s) ∧
     (∀ i d, iteration_of (call_of ev) = Some (i, d) →
             EvRegister i d ∈ tr1)) ∧
  (∀ tr1 i d ev tr2 s,
     tr = tr1 ++ EvRegister i d :: ev :: tr2 →
     parameters_of ev = Some s →
     s !! Domain.id d = Some (mkParameterContainer None)) ∧
  dom (view scenario.1 (_parameters scenario.2)) ⊆
    dom (view h' (_parameters scenario.2)) ∧
  (∀ i d, EvRegister i d ∈ tr →
          Domain.id d ∈ dom (view h' (_parameters scenario.2))) ∧
  (∀ d0, head (discovered scenario.2 None) = Some d0 →
         EvRegister 0 d0 ∈ tr) ∧
  (∀ i d, EvRegister i d ∈ tr →
     discovered scenario.2 None !! i = Some d ∧
     ∀ i' d', (i' < i)%nat → discovered scenario.2 None !! i' = Some d' →
              EvRegister i' d' ∈ tr) ∧
  (∀ cfgs, r = Return cfgs →
     ∀ i d, discovered scenario.2 None !! i = Some d →
       EvRegister i d ∈ tr ∧
       Domain.id d ∈ dom (view h' (_parameters scenario.2))) ∧
  Forall (records_invocation scenario.2 None) tr.
Proof.
  split; [by_evaluation|].
  apply (generate_registers_containers scenario.2 scenario.1 None).
  by_evaluation.
Defined.

Lemma generate_deterministic_witness :
  heap_wf scenario_after scenario_counting.2 ∧
  heap_wf scenario_copy.1 scenario_counting.2 ∧
  view scenario_after (_parameters scenario_counting.2) =
    view scenario_copy.1 (_parameters scenario_counting.2) ∧
  let '(h1', tr1, r1) :=
    run_generate scenario_counting.2 scenario_after None in
  let '(h2', tr2, r2) :=
    run_generate scenario_counting.2 scenario_copy.1 None in
  r1 = r2 ∧ tr1 = tr2 ∧
  view h1' (_parameters scenario_counting.2) =
    view h2' (_parameters scenario_counting.2).
Proof.
  split; [by_evaluation|]. split; [by_evaluation|].
  split; [vm_compute; reflexivity|].
  apply (generate_deterministic scenario_counting.2 scenario_after
           scenario_copy.1 None);
    [by_evaluation|by_evaluation|vm_compute; reflexivity].
Defined.

Lemma generate_variables_resolution_witness :
  heap_wf scenario.1 scenario.2 ∧
  let '(_, tr, _) := run_generate scenario.2 scenario.1 None in
  Forall (λ ev, ∀ v0, variables_of ev = Some v0 →
                      v0 = profiler_variables (_rule_based_profiler scenario.2))
    tr.
Proof.
  split; [by_evaluation|].
  apply (generate_variables_resolution scenario.2 scenario.1 None).
  by_evaluation.
Defined.

Lemma generate_failure_keeps_parameters_witness :
  heap_wf scenario_failing.1 scenario_failing.2 ∧
  let '(h', tr, r) :=
    run_generate scenario_failing.2 scenario_failing.1 None in
  ∀ e, r = Raise e →
    view h' (_parameters scenario_failing.2) =
      replay tr (view scenario_failing.1 (_parameters scenario_failing.2)) ∧
    (∀ tr1 ev tr2 k c,
       tr = tr1 ++ ev :: tr2 →
       written ev = Some (k, c) →
       Forall (λ ev', ∀ c', written ev' ≠ Some (k, c')) tr2 →
       view h' (_parameters scenario_failing.2) !! k = Some c) ∧
    (let '(h1, r1) := run_parameters scenario_failing.2 h' in
     view h1 r1 = view h' (_parameters scenario_failing.2)).
Proof.
  split; [by_evaluation|].
  apply (generate_failure_keeps_parameters scenario_failing.2
           scenario_failing.1 None).
  by_evaluation.
Defined.

(** The containers left behind by the failing call: that of [colA] fully
    populated, that of [colB] as the failing builder left it. *)
Example scenario_failing_parameters :
  view (run_generate scenario_failing.2 scenario_failing.1 None).1.1
    (_parameters scenario_failing.2) =
    <["colA" := mkParameterContainer
                  (Some (<["row_count" := PInt 100]>
                           {["started" := PInt 1]}))]>
      (<["colB" := mkParameterContainer (Some {["started" := PInt 1]})]> ∅).
Proof. vm_compute. reflexivity. Qed.

Lemma generate_without_builders_witness :
  heap_wf scenario_no_builders.1 scenario_no_builders.2 ∧
  _domain_builder scenario_no_builders.2 = Some two_columns ∧
  get_domains two_columns (resolve_variables scenario_no_builders.2 None) =
    Return [colA; colB] ∧
  _parameter_builders scenario_no_builders.2 = None ∧
  ∃ e,
    (run_generate scenario_no_builders.2 scenario_no_builders.1 None).2 =
      Raise e ∧
    (_parameter_builders scenario_no_builders.2 = None → e = TypeError).
Proof.
  split; [by_evaluation|]. split; [reflexivity|]. split; [reflexivity|].
  split; [reflexivity|].
  apply (proj2 (proj2 (generate_without_builders scenario_no_builders.2
                         scenario_no_builders.1 None))
           two_columns colA [colB]);
    [by_evaluation|reflexivity|reflexivity|left; reflexivity].
Defined.

(** C7, as stated, fails: the second of two calls on the same Rule, with
    the same builders and the same variables, is passed the entries that the
    first one left in the Rule's parameter map, and a builder that looks at
    them returns something else. *)
Lemma generate_repeated_call_differs :
  let '(h1, _, r1) :=
    run_generate scenario_counting.2 scenario_counting.1 None in
  let '(_, _, r2) := run_generate scenario_counting.2 h1 None in
  r1 ≠ r2.
Proof.
  destruct (run_generate scenario_counting.2 scenario_counting.1 None)
    as [[h1 tr1] r1] eqn:Hfirst.
  destruct (run_generate scenario_counting.2 h1 None)
    as [[h2 tr2] r2] eqn:Hsecond.
  intros Heq.
  assert (h1 = (run_generate scenario_counting.2 scenario_counting.1 None).1.1)
    as -> by (by rewrite Hfirst).
  apply (f_equal (λ x, x.2)) in Hfirst, Hsecond. simpl in Hfirst, Hsecond.
  subst r1 r2.
  apply (f_equal (λ r, match r with
                       | Return (c :: _) => kwargs c !! "count"
                       | _ => None
                       end)) in Heq.
  vm_compute in Heq. discriminate Heq.
Qed.

(** C10, as stated, fails: a Rule without parameter builders and without
    expectation configuration builders returns the empty list when the
    domain builder finds no domain. *)
Lemma generate_without_builder_lists_returns :
  _parameter_builders scenario_no_builders_no_columns.2 = None ∧
  _expectation_configuration_builders scenario_no_builders_no_columns.2 =
    None ∧
  (run_generate scenario_no_builders_no_columns.2
     scenario_no_builders_no_columns.1 None).2 = Return [].
Proof. split; [reflexivity|]. split; [reflexivity|]. vm_compute. reflexivity. Qed.

(** ** The further properties on the concrete rules *)

Lemma Rule_init_fresh_witness :
  heap_wf scenario_after scenario.2 ∧
  let '(h', self) :=
    Rule_init scenario_after profiler "second" None None None in
  _parameters scenario.2 ≠ _parameters self ∧
  heap_wf h' scenario.2 ∧
  view h' (_parameters scenario.2) =
    view scenario_after (_parameters scenario.2).
Proof.
  split; [by_evaluation|].
  pose proof (Rule_init_fresh scenario_after profiler "second" None None None)
    as H.
  unfold Rule_init in *. destruct H as (_ & _ & _ & _ & _ & _ & H).
  apply H. by_evaluation.
Defined.

Lemma parameter_builders_last_wins_witness :
  _parameter_builders scenario_failing.2 =
    Some [failing_on_colB; row_count_builder] ∧
  ∃ dict,
    parameter_builders (λ _, "statistic") scenario_failing.2 = Some dict ∧
    (∀ k, dict !! k =
          last (filter (λ _, "statistic" = k)
                  [failing_on_colB; row_count_builder])) ∧
    dom dict =
      list_to_set ((λ _, "statistic") <$>
                     [failing_on_colB; row_count_builder]) ∧
    (size dict ≤ length [failing_on_colB; row_count_builder])%nat ∧
    (size dict = length [failing_on_colB; row_count_builder] ↔
     NoDup ((λ _, "statistic") <$> [failing_on_colB; row_count_builder])).
Proof.
  split; [reflexivity|].
  apply (proj2 (parameter_builders_last_wins (λ _, "statistic")
                  scenario_failing.2)).
  reflexivity.
Defined.

Lemma expectation_configuration_builders_last_wins_witness :
  _expectation_configuration_builders scenario_missing.2 =
    Some [not_null_builder; missing_parameter_builder] ∧
  ∃ dict,
    expectation_configuration_builders (λ _, "expect_column")
      scenario_missing.2 = Return dict ∧
    (∀ k, dict !! k =
          last (filter (λ _, "expect_column" = k)
                  [not_null_builder; missing_parameter_builder])) ∧
    dom dict =
      list_to_set ((λ _, "expect_column") <$>
                     [not_null_builder; missing_parameter_builder]) ∧
    (size dict ≤ length [not_null_builder; missing_parameter_builder])%nat ∧
    (size dict = length [not_null_builder; missing_parameter_builder] ↔
     NoDup ((λ _, "expect_column") <$>
              [not_null_builder; missing_parameter_builder])).
Proof.
  split; [reflexivity|].
  apply (proj2 (expectation_configuration_builders_last_wins
                  (λ _, "expect_column") scenario_missing.2)).
  reflexivity.
Defined.

Lemma generate_follows_schedule_witness :
  heap_wf scenario_failing.1 scenario_failing.2 ∧
  _domain_builder scenario_failing.2 = Some two_columns ∧
  get_domains two_columns (resolve_variables scenario_failing.2 None) =
    Return [colA; colB] ∧
  let '(_, tr, r) :=
    run_generate scenario_failing.2 scenario_failing.1 None in
  Forall (records_invocation scenario_failing.2 None) tr ∧
  discovered scenario_failing.2 None = [colA; colB] ∧
  call_of <$> tr `prefix_of` schedule 2 1 [colA; colB] ∧
  (∀ cfgs, r = Return cfgs → call_of <$> tr = schedule 2 1 [colA; colB]).
Proof.
  split; [by_evaluation|]. split; [reflexivity|]. split; [reflexivity|].
  pose proof (generate_follows_schedule scenario_failing.2
                scenario_failing.1 None) as H.
  destruct (run_generate scenario_failing.2 scenario_failing.1 None)
    as [[h' tr] r].
  destruct (H ltac:(by_evaluation)) as [Hrec Hsched].
  split; [exact Hrec|].
  apply (Hsched two_columns [colA; colB]); reflexivity.
Defined.

Lemma generate_parameter_keys_witness :
  heap_wf scenario.1 scenario.2 ∧
  _domain_builder scenario.2 = Some two_columns ∧
  get_domains two_columns (resolve_variables scenario.2 None) =
    Return [colA; colB] ∧
  let '(h', _, r) := run_generate scenario.2 scenario.1 None in
  dom (view scenario.1 (_parameters scenario.2)) ⊆
    dom (view h' (_parameters scenario.2)) ∧
  dom (view h' (_parameters scenario.2)) ⊆
    dom (view scenario.1 (_parameters scenario.2)) ∪
    list_to_set (Domain.id <$> [colA; colB]) ∧
  (∀ cfgs, r = Return cfgs →
     dom (view h' (_parameters scenario.2)) =
     dom (view scenario.1 (_parameters scenario.2)) ∪
     list_to_set (Domain.id <$> [colA; colB])).
Proof.
  split; [by_evaluation|]. split; [reflexivity|]. split; [reflexivity|].
  pose proof (generate_parameter_keys scenario.2 scenario.1 None) as H.
  destruct (run_generate scenario.2 scenario.1 None) as [[h' tr] r].
  apply (H ltac:(by_evaluation) two_columns [colA; colB]); reflexivity.
Defined.

Lemma generate_parameters_are_current_witness :
  heap_wf scenario_failing.1 scenario_failing.2 ∧
  let '(h', tr, _) :=
    run_generate scenario_failing.2 scenario_failing.1 None in
  (∀ tr1 ev tr2 s,
     tr = tr1 ++ ev :: tr2 →
     parameters_of ev = Some s →
     s = replay tr1 (view scenario_failing.1 (_parameters scenario_failing.2))) ∧
  (∀ tr1 i p d v0 s out ev tr2 s',
     tr = tr1 ++ EvBuildParameters i p d v0 s out :: ev :: tr2 →
     parameters_of ev = Some s' →
     s' !! Domain.id d = Some out.1) ∧
  view h' (_parameters scenario_failing.2) =
    replay tr (view scenario_failing.1 (_parameters scenario_failing.2)).
Proof.
  split; [by_evaluation|].
  apply (generate_parameters_are_current scenario_failing.2
           scenario_failing.1 None).
  by_evaluation.
Defined.

Lemma generate_configurations_see_final_witness :
  heap_wf scenario_failing.1 scenario_failing.2 ∧
  let '(_, tr, _) :=
    run_generate scenario_failing.2 scenario_failing.1 None in
  ∀ i j d v0 s out,
    EvBuildExpectationConfiguration i j d v0 s out ∈ tr →
    (∀ j' d' v' s' out',
       EvBuildExpectationConfiguration i j' d' v' s' out' ∈ tr → s' = s) ∧
    (∀ p d' v' s' out',
       EvBuildParameters i p d' v' s' out' ∈ tr →
       S p = length (default [] (_parameter_builders scenario_failing.2)) →
       s !! Domain.id d = Some out'.1) ∧
    (length (default [] (_parameter_builders scenario_failing.2)) = 0 →
     s !! Domain.id d = Some (mkParameterContainer None)) ∧
    (∀ b, last (default [] (_parameter_builders scenario_failing.2)) =
            Some b →
       ∃ s0,
         EvBuildParameters i
           (length (default [] (_parameter_builders scenario_failing.2)) - 1)
           d v0 s0
           (build_parameters b (s0 !!! Domain.id d) d v0 s0) ∈ tr ∧
         s !! Domain.id d =
           Some (build_parameters b (s0 !!! Domain.id d) d v0 s0).1).
Proof.
  split; [by_evaluation|].
  apply (generate_configurations_see_final scenario_failing.2
           scenario_failing.1 None).
  by_evaluation.
Defined.

Lemma generate_leaves_other_objects_witness :
  heap_wf scenario_copy.1 scenario.2 ∧
  let '(h', _, _) := run_generate scenario.2 scenario_copy.1 None in
  containers scenario_copy.1 ⊆ containers h' ∧
  (∀ q (items : gmap string loc),
     q ≠ _parameters scenario.2 →
     dicts scenario_copy.1 !! q = Some items →
     dicts h' !! q = Some items) ∧
  (∀ q (items : gmap string loc),
     q ≠ _parameters scenario.2 →
     dicts scenario_copy.1 !! q = Some items →
     (∀ k l, items !! k = Some l → l ∈ dom (containers scenario_copy.1)) →
     view h' q = view scenario_copy.1 q).
Proof.
  split; [by_evaluation|].
  apply (generate_leaves_other_objects scenario.2 scenario_copy.1 None).
  by_evaluation.
Defined.

Lemma parameters_copy_survives_generate_witness :
  heap_wf scenario_after scenario_counting.2 ∧
  let '(h1, r) := run_parameters scenario_counting.2 scenario_after in
  let '(h2, _, _) := run_generate scenario_counting.2 h1 None in
  view h2 r = view scenario_after (_parameters scenario_counting.2).
Proof.
  split; [by_evaluation|].
  apply (parameters_copy_survives_generate scenario_counting.2
           scenario_after None).
  by_evaluation.
Defined.

Lemma new_rule_parameters_after_generate_witness :
  (run_generate scenario.2 scenario.1 None).2 =
    Return
      [mkExpectationConfiguration "expect_column_values_to_not_be_null"
         {["column" := PStr "colA"]};
       mkExpectationConfiguration "expect_column_values_to_not_be_null"
         {["column" := PStr "colB"]}] ∧
  dom (view scenario_copy.1 scenario_copy.2) =
    list_to_set (Domain.id <$> [colA; colB]).
Proof.
  split; [vm_compute; reflexivity|].
  pose proof (new_rule_parameters_after_generate empty_heap profiler "rule"
                (Some two_columns) (Some [row_count_builder])
                (Some [not_null_builder]) None) as H.
  vm_compute in H. vm_compute.
  exact (H two_columns [colA; colB]
           [mkExpectationConfiguration "expect_column_values_to_not_be_null"
              {["column" := PStr "colA"]};
            mkExpectationConfiguration "expect_column_values_to_not_be_null"
              {["column" := PStr "colB"]}]
           eq_refl eq_refl eq_refl).
Defined.

(** The builders run in the order of the Rule's list: of two builders that
    write the same parameter, the configuration builder sees the value of
    the second, and so does the Rule's parameter map. *)
Example scenario_overwrite_configurations :
  (run_generate scenario_overwrite.2 scenario_overwrite.1 None).2 =
    Return [mkExpectationConfiguration "expect_x" {["x" := PInt 2]};
            mkExpectationConfiguration "expect_x" {["x" := PInt 2]}].
Proof. vm_compute. reflexivity. Qed.

Example scenario_overwrite_parameters :
  view (run_generate scenario_overwrite.2 scenario_overwrite.1 None).1.1
    (_parameters scenario_overwrite.2) =
    <["colA" := mkParameterContainer (Some {["x" := PInt 2]})]>
      (<["colB" := mkParameterContainer (Some {["x" := PInt 2]})]> ∅).
Proof. vm_compute. reflexivity. Qed.

Example scenario_overwrite_calls :
  call_of <$> (run_generate scenario_overwrite.2 scenario_overwrite.1 None).1.2 =
    schedule 2 1 [colA; colB].
Proof. vm_compute. reflexivity. Qed.
